(** * aurora.js: key store rotation, call translation, error classification,
      gas accounting and state demultiplexing

    A shallow embedding of [src/lib/key_store.js] (classes [KeyStore] and
    [InMemoryMultiKeyStore]) and of the [Engine] class (methods [submit],
    [getCode], [getStorage], [callFunction], [callMutativeFunction],
    [prepareInput], [errorWithDetails], [transactionGasBurned]).

    Conventions of the embedding.
    - A JS [number] that holds a count (the rotation counter, a block height,
      a gas figure) is a value of [N]; JS arithmetic on such numbers is exact
      below 2^53, and the model describes the program in that range.
    - A JS [bigint] is a value of [N] as well (all of them are unsigned here).
    - A JS string is a [string]: one [ascii] per code unit.
    - [Uint8Array] and [Buffer] are [list byte].
    - A JS [Map] whose iteration order the program observes is an association
      list in insertion order ([JsMap]); a JS [Set] of objects is a list
      without repetition in insertion order ([JsSet]); a [Map] that is only
      read by key is a [gmap].
    - An [async] method is its body run to completion: the event loop is
      single threaded and each property is about one call.  A rejected promise
      and a thrown exception are both [Throw]. *)

From Stdlib Require Import String Ascii List NArith Lia Bool Permutation Sorted.
From Stdlib.Strings Require Import Byte.
From stdpp Require Import gmap strings sorting pretty.
Import ListNotations.

Local Open Scope string_scope.
Local Open Scope list_scope.
Local Open Scope N_scope.

(** ** JS containers with observable iteration order *)

Module JsMap.
Section Defs.
Context {V : Type}.

Definition t := list (string * V).

(** [Map.prototype.get]: [None] is [undefined]. *)
Fixpoint get (k : string) (m : t) : option V :=
  match m with
  | [] => None
  | (k', v) :: m' => if String.eqb k k' then Some v else get k m'
  end.

Definition has (k : string) (m : t) : bool :=
  match get k m with Some _ => true | None => false end.

(** [Map.prototype.set]: an existing key keeps its place, a new key is
    appended. *)
Fixpoint set (k : string) (v : V) (m : t) : t :=
  match m with
  | [] => [(k, v)]
  | (k', v') :: m' =>
      if String.eqb k k' then (k', v) :: m' else (k', v') :: set k v m'
  end.

(** [Map.prototype.delete]. *)
Fixpoint delete (k : string) (m : t) : t :=
  match m with
  | [] => []
  | (k', v') :: m' =>
      if String.eqb k k' then m' else (k', v') :: delete k m'
  end.

Definition clear (m : t) : t := [].

(** [[...m.keys()]]. *)
Definition keys (m : t) : list string := List.map fst m.
End Defs.
Arguments t : clear implicits.
End JsMap.

Module JsSet.
Section Defs.
Context {A : Type} (eqb : A -> A -> bool).

(** [Set.prototype.add]: a member already present is not added again. *)
Definition add (x : A) (s : list A) : list A :=
  if List.existsb (eqb x) s then s else s ++ [x].

(** [new Set(xs)]: first occurrences, in order. *)
Definition of_list (xs : list A) : list A :=
  List.fold_left (fun s x => add x s) xs [].
End Defs.
End JsSet.

(** ** Key pairs

    A key pair is an object; the only thing the store does with it is to
    compare it by identity ([Set] membership).  The model keeps the identity. *)

Definition KeyPair : Type := nat.

(** ** [InMemoryMultiKeyStore] *)

Module InMemoryMultiKeyStore.

Record t := mk {
  networkID : string;
  reKeyCounter : N;
  store : JsMap.t (list KeyPair)
}.

(** [constructor(networkID)] *)
Definition new (networkID : string) : t :=
  {| networkID := networkID; reKeyCounter := 0; store := [] |}.

(** [reKey()] *)
Definition reKey (s : t) : t :=
  {| networkID := networkID s;
     reKeyCounter := reKeyCounter s + 1;
     store := store s |}.

(** [this.store.get(accountID) || new Set()]: a [Set] object is truthy, so
    the fresh set is taken exactly when the account is absent. *)
Definition pool (s : t) (accountID : string) : list KeyPair :=
  match JsMap.get accountID (store s) with
  | Some keyPairs => keyPairs
  | None => []
  end.

(** [setKey(networkID, accountID, keyPair)] *)
Definition setKey (networkID' accountID : string) (keyPair : KeyPair) (s : t) : t :=
  if negb (String.eqb networkID' (networkID s)) then s
  else
    let keyPairs := JsSet.add Nat.eqb keyPair (pool s accountID) in
    {| networkID := networkID s;
       reKeyCounter := reKeyCounter s;
       store := JsMap.set accountID keyPairs (store s) |}.

(** [getKey(networkID, accountID)]: [None] is [undefined]. *)
Definition getKey (networkID' accountID : string) (s : t) : option KeyPair :=
  if negb (String.eqb networkID' (networkID s)) then None
  else
    let keyPairs := pool s accountID in
    if Nat.eqb (List.length keyPairs) 0 then None
    else
      let keyIndex := reKeyCounter s mod N.of_nat (List.length keyPairs) in
      keyPairs !! N.to_nat keyIndex.

(** [removeKey(networkID, accountID)] *)
Definition removeKey (networkID' accountID : string) (s : t) : t :=
  if negb (String.eqb networkID' (networkID s)) then s
  else
    {| networkID := networkID s;
       reKeyCounter := reKeyCounter s;
       store := JsMap.delete accountID (store s) |}.

(** [clear()]: the method has no parameter. *)
Definition clear (s : t) : t :=
  {| networkID := networkID s;
     reKeyCounter := reKeyCounter s;
     store := JsMap.clear (store s) |}.

(** [getNetworks()] *)
Definition getNetworks (s : t) : list string := [networkID s].

(** [getAccounts(networkID)] *)
Definition getAccounts (networkID' : string) (s : t) : list string :=
  if negb (String.eqb networkID' (networkID s)) then []
  else JsMap.keys (store s).

(** The member that the counter value [c] selects in a pool. *)
Definition selected (keyPairs : list KeyPair) (c : N) : option KeyPair :=
  keyPairs !! N.to_nat (c mod N.of_nat (length keyPairs)).

(** The keys handed out by [n] rounds of [reKey()] then [getKey()]. *)
Fixpoint rounds (n : nat) (accountID : string) (s : t) : list (option KeyPair) :=
  match n with
  | O => []
  | S n' =>
      let s' := reKey s in
      getKey (networkID s') accountID s' :: rounds n' accountID s'
  end.

End InMemoryMultiKeyStore.

(** ** The key store interface

    [NEAR.keyStores.KeyStore] is the abstract class every key source extends.
    The merged store only reads its sources through [getKey] and
    [getAccounts]. *)

Class KeyStoreLike (S : Type) := {
  ks_getKey : string -> string -> S -> option KeyPair;
  ks_getAccounts : string -> S -> list string
}.

#[global] Instance InMemoryMultiKeyStore_like : KeyStoreLike InMemoryMultiKeyStore.t := {|
  ks_getKey := InMemoryMultiKeyStore.getKey;
  ks_getAccounts := InMemoryMultiKeyStore.getAccounts
|}.

(** A key source of any class, packed with its operations. *)
Record Source := mkSource {
  src_class : Type;
  src_like : KeyStoreLike src_class;
  src_state : src_class
}.

Definition source_getKey (networkID accountID : string) (src : Source) : option KeyPair :=
  @ks_getKey _ (src_like src) networkID accountID (src_state src).

Definition source_getAccounts (networkID : string) (src : Source) : list string :=
  @ks_getAccounts _ (src_like src) networkID (src_state src).

(** [Array.prototype.sort()] without a comparator orders strings by their
    code units, ascending.  The runtime sorts by merging; on strings the
    result does not depend on the algorithm. *)
Definition Array_sort (l : list string) : list string :=
  merge_sort String.le l.

(** ** [KeyStore], the merged store *)

Module KeyStore.

(** [this.keyStore] and [this.keyStores[0]] are the same object: the record
    keeps it once, and [keyStores] puts it first. *)
Record t := mk {
  networkID : string;
  keyStore : InMemoryMultiKeyStore.t;
  others : list Source
}.

Definition keyStores (ks : t) : list Source :=
  mkSource _ InMemoryMultiKeyStore_like (keyStore ks) :: others ks.

(** Modelled from the spec: [MergeKeyStore.getAccounts] of near-api-js, the
    [super.getAccounts] that [getAccounts] calls, is not under src/.  The
    spec (4.1) says that it unions all sources' accounts for the network;
    it collects them in a [Set], in the order of the sources. *)
Definition MergeKeyStore_getAccounts (networkID' : string) (ks : t) : list string :=
  JsSet.of_list String.eqb
    (List.concat (List.map (source_getAccounts networkID') (keyStores ks))).

(** [getAccounts()]: [[...new Set(accounts)].sort()] *)
Definition getAccounts (ks : t) : list string :=
  let accounts := MergeKeyStore_getAccounts (networkID ks) ks in
  Array_sort (JsSet.of_list String.eqb accounts).

(** [reKey()]: [this.keyStore.reKey()] *)
Definition reKey (ks : t) : t :=
  {| networkID := networkID ks;
     keyStore := InMemoryMultiKeyStore.reKey (keyStore ks);
     others := others ks |}.

End KeyStore.

(** ** Byte and string codecs of the runtime *)

Definition bytes : Type := list byte.

(** [Buffer.prototype.toString('hex')]: two lowercase digits per byte. *)
Definition hex_digit (n : N) : ascii :=
  match String.get (N.to_nat n) "0123456789abcdef" with
  | Some c => c
  | None => "0"%char
  end.

Definition hex_of_byte (b : byte) : string :=
  String (hex_digit (Byte.to_N b / 16)) (String (hex_digit (Byte.to_N b mod 16)) EmptyString).

Definition toString_hex (bs : bytes) : string :=
  String.concat EmptyString (List.map hex_of_byte bs).

(** [Buffer.prototype.toString('base64')]: the standard alphabet, padded. *)
Definition base64_char (n : N) : ascii :=
  match String.get (N.to_nat n)
          "ABCDEFGHIJKLMNOPQRSTUVWXYZabcdefghijklmnopqrstuvwxyz0123456789+/" with
  | Some c => c
  | None => "="%char
  end.

Fixpoint toString_base64 (bs : bytes) : string :=
  match bs with
  | [] => EmptyString
  | [a] =>
      let n := Byte.to_N a * 65536 in
      String (base64_char (n / 262144)) (String (base64_char (n / 4096 mod 64)) "==")
  | [a; b] =>
      let n := Byte.to_N a * 65536 + Byte.to_N b * 256 in
      String (base64_char (n / 262144)) (String (base64_char (n / 4096 mod 64))
        (String (base64_char (n / 64 mod 64)) "="))
  | a :: b :: c :: rest =>
      let n := Byte.to_N a * 65536 + Byte.to_N b * 256 + Byte.to_N c in
      String (base64_char (n / 262144)) (String (base64_char (n / 4096 mod 64))
        (String (base64_char (n / 64 mod 64)) (String (base64_char (n mod 64))
          (toString_base64 rest))))
  end.

(** [toBigIntBE] of bigint-buffer: the bytes as a big-endian unsigned
    integer; the empty buffer is 0. *)
Definition toBigIntBE (bs : bytes) : N :=
  List.fold_left (fun acc b => acc * 256 + Byte.to_N b) bs 0.

(** [String.prototype.replace(searchValue, replaceValue)] with a string
    pattern: the first occurrence of the pattern, wherever it is, is replaced.
    [replaceValue] is taken without [$] patterns (the program passes ['']). *)
Fixpoint String_replace (searchValue replaceValue s : string) : string :=
  if String.prefix searchValue s
  then replaceValue +:+ String.substring (String.length searchValue)
                          (String.length s - String.length searchValue) s
  else match s with
       | EmptyString => EmptyString
       | String c s' => String c (String_replace searchValue replaceValue s')
       end.

(** The double quote, code unit 34. *)
Definition dquote : ascii := ascii_of_N 34.

(** [JSON.stringify] of a string: quotes, with the escapes of
    QuoteJSONString. *)
Definition JSON_quote_char (c : ascii) : string :=
  let n := N_of_ascii c in
  if n =? 8 then "\b" else
  if n =? 9 then "\t" else
  if n =? 10 then "\n" else
  if n =? 12 then "\f" else
  if n =? 13 then "\r" else
  if n =? 34 then "\" +:+ String dquote EmptyString else
  if n =? 92 then "\\" else
  if n <? 32 then "\u00" +:+ String (hex_digit (n / 16)) (String (hex_digit (n mod 16)) EmptyString)
  else String c EmptyString.

Fixpoint JSON_quote_chars (s : string) : string :=
  match s with
  | EmptyString => EmptyString
  | String c s' => JSON_quote_char c +:+ JSON_quote_chars s'
  end.

Definition JSON_quote (s : string) : string :=
  String dquote (JSON_quote_chars s +:+ String dquote EmptyString).

(** ** Values that cross the engine's boundary *)

(** [Result] of the prelude. *)
Inductive Result (T E : Type) : Type :=
| Ok (t : T)
| Err (e : E).
Arguments Ok {T E} t.
Arguments Err {T E} e.

Definition Result_map {T U E : Type} (f : T -> U) (r : Result T E) : Result U E :=
  match r with
  | Ok t => Ok (f t)
  | Err e => Err e
  end.

Definition Error : Type := string.

(** A thrown value, by the properties the engine reads from it.  [None] is
    [undefined] (also when an optional chain stops early). *)
Record JsError := mkJsError {
  err_type : option string;
  err_message : string;
  err_toString : string;
  err_transaction_outcome_id : option string;
  err_kind_ExecutionError : option string
}.

(** The [TypeError] the runtime throws by itself. *)
Definition TypeError (message : string) : JsError :=
  {| err_type := None;
     err_message := message;
     err_toString := "TypeError: " +:+ message;
     err_transaction_outcome_id := None;
     err_kind_ExecutionError := None |}.

(** How a call ends: with a value, or with a thrown value (for an [async]
    method, a rejected promise). *)
Inductive Res (A : Type) : Type :=
| Return (a : A)
| Throw (e : JsError).
Arguments Return {A} a.
Arguments Throw {A} e.

(** [BlockID = BlockTag | BlockHeight | BlockHash]: a height is a number, a
    tag or a hash is a string. *)
Inductive BlockID :=
| BlockNumber (n : N)
| BlockString (s : string).

(** An optional property that the code tests against both [undefined] and
    [null]. *)
Inductive Nullable (A : Type) : Type :=
| Undefined
| Null
| Given (a : A).
Arguments Undefined {A}.
Arguments Null {A}.
Arguments Given {A} a.

Record ViewOptions := mkViewOptions { block : Nullable BlockID }.

(** The request object handed to [provider.query]; [None] is a property set
    to [undefined]. *)
Record QueryRequest := mkQueryRequest {
  request_type : string;
  account_id : string;
  method_name : string;
  args_base64 : string;
  finality : option string;
  block_id : option BlockID
}.

Record QueryResponse := mkQueryResponse {
  logs : option (list string);
  result : bytes
}.

Record ExecutionOutcome := mkExecutionOutcome { gas_burnt : N }.

Record ExecutionOutcomeWithId := mkExecutionOutcomeWithId {
  id : string;
  outcome : ExecutionOutcome
}.

(** [FinalExecutionStatusBasic] is a string enumeration;
    [FinalExecutionStatus] is an object with an optional [SuccessValue]
    (its [Failure] member is never read). *)
Inductive FinalExecutionStatusBasic := NotStarted | Started | Failure.

Inductive ExecutionStatus :=
| StatusBasic (s : FinalExecutionStatusBasic)
| StatusObject (SuccessValue : option string).

(** [FinalExecutionOutcome], as [functionCall] and [txStatus] resolve it.
    [transaction_hash] is [result.transaction.hash]; [toString_] is what
    [result.toString()] returns. *)
Record FinalExecutionOutcome := mkFinalExecutionOutcome {
  status : ExecutionStatus;
  transaction_hash : string;
  transaction_outcome : option ExecutionOutcomeWithId;
  receipts_outcome : list ExecutionOutcomeWithId;
  toString_ : string
}.

Definition GasBurned : Type := N.

Record TransactionID := mkTransactionID { tid : string }.

Module TransactionOutcome.
Record t := mk {
  id : TransactionID;
  output : bytes;
  gasBurned : GasBurned;
  tx : option string
}.
End TransactionOutcome.

Module TransactionErrorDetails.
Record t := mk {
  tx : option string;
  gasBurned : GasBurned
}.

(** [JSON.stringify(details)]: own properties in the order [tx],
    [gasBurned]; a property whose value is [undefined] is left out. *)
Definition stringify (details : t) : string :=
  "{" +:+
  match tx details with
  | Some ref => JSON_quote "tx" +:+ ":" +:+ JSON_quote ref +:+ ","
  | None => EmptyString
  end +:+
  JSON_quote "gasBurned" +:+ ":" +:+ pretty (gasBurned details) +:+ "}".
End TransactionErrorDetails.

Module WrappedSubmitResult.
Record t {SubmitResult : Type} := mk {
  result : SubmitResult;
  gasBurned : GasBurned;
  tx : option string
}.
Arguments t : clear implicits.
End WrappedSubmitResult.

(** The part of a parsed raw transaction that the engine reads. *)
Record RawTransaction := mkRawTransaction { gasLimit : N }.

(** Modelled from the spec: the class [Address] of account.js is not under
    src/.  The spec (3) gives it as a 20-byte identifier, a value compared by
    its bytes; [toBytes()] is the identity on this model. *)
Definition Address : Type := bytes.

(** A record of [viewState]. *)
Record StateRecord := mkStateRecord {
  key : bytes;
  value : bytes
}.

Module AddressState.
Record t := mk {
  address : Address;
  nonce : N;
  balance : N;
  code : option bytes;
  storage : gmap N N
}.

(** [new AddressState(address)] with the defaults of the constructor. *)
Definition new (address : Address) : t :=
  {| address := address; nonce := 0; balance := 0; code := None; storage := ∅ |}.
End AddressState.

(** [EngineStorageKeyPrefix] *)
Module EngineStorageKeyPrefix.
Definition Config : N := 0.
Definition Nonce : N := 1.
Definition Balance : N := 2.
Definition Code : N := 3.
Definition Storage : N := 4.
End EngineStorageKeyPrefix.

(** ** The world the engine runs in *)

Inductive ConsoleMessage :=
| DebugLogs (lines : list string)
| DebugError (error : JsError).

(** What the engine does to the outside, in order.  All events but
    [EvConsoleDebug] are calls to the backend. *)
Inductive Event :=
| EvQuery (request : QueryRequest)
| EvFunctionCall (contractId methodName : string) (args : bytes) (gas : N)
| EvTxStatus (txHash : bytes) (accountId : string)
| EvAccount (accountId : string)
| EvViewState (prefix finality : string)
| EvConsoleDebug (message : ConsoleMessage).

Definition is_backend_call (ev : Event) : bool :=
  match ev with
  | EvConsoleDebug _ => false
  | _ => true
  end.

Record World := mkWorld {
  keyStore : KeyStore.t;
  trace : list Event
}.

(** The collaborators of the engine (spec, 6): codecs and parsers of the
    libraries and of modules that are not under src/, and the backend, whose
    answer may depend on everything that happened before. *)
Record Env {SubmitResult : Type} := mkEnv {
  contractID : string;
  parseHexString : string -> Res bytes;
  parseRawTransaction : bytes -> Res RawTransaction;
  base58ToBytes : option string -> Res bytes;
  TransactionID_fromHex : string -> Res TransactionID;
  Buffer_from_base64 : string -> bytes;
  SubmitResult_decode : bytes -> Res SubmitResult;
  Address_parse : string -> Result Address string;
  unwrap_error : string -> JsError;
  near_account : World -> string -> Res unit;
  account_viewState : World -> string -> string -> Res (list StateRecord);
  provider_query : World -> QueryRequest -> Res QueryResponse;
  signer_functionCall : World -> string -> string -> bytes -> N -> Res FinalExecutionOutcome;
  provider_txStatus : World -> bytes -> string -> Res FinalExecutionOutcome
}.
Arguments Env : clear implicits.

(** ** Computations: world passing with exceptions *)

Definition M (A : Type) : Type := World -> Res A * World.

Definition ret {A : Type} (a : A) : M A := fun w => (Return a, w).

Definition throw {A : Type} (e : JsError) : M A := fun w => (Throw e, w).

Definition bind {A B : Type} (m : M A) (f : A -> M B) : M B :=
  fun w =>
    match m w with
    | (Return a, w') => f a w'
    | (Throw e, w') => (Throw e, w')
    end.

Notation "'let*' x ':=' c1 'in' c2" := (bind c1 (fun x => c2))
  (at level 10, x name, c1 at level 100, c2 at level 200).

(** [try { m } catch (error) { handler }] *)
Definition try_catch {A : Type} (m : M A) (handler : JsError -> M A) : M A :=
  fun w =>
    match m w with
    | (Return a, w') => (Return a, w')
    | (Throw e, w') => handler e w'
    end.

Definition lift {A : Type} (r : Res A) : M A := fun w => (r, w).

(** The world with one more event on record. *)
Definition recorded (ev : Event) (w : World) : World :=
  {| keyStore := keyStore w; trace := trace w ++ [ev] |}.

(** The world after [this.keyStore.reKey()]. *)
Definition rekeyed (w : World) : World :=
  {| keyStore := KeyStore.reKey (keyStore w); trace := trace w |}.

Definition emit (ev : Event) : M unit :=
  fun w => (Return tt, recorded ev w).

(** A call to a collaborator: it answers from the world as it is, and the
    call is recorded. *)
Definition ask {A : Type} (ev : Event) (answer : World -> Res A) : M A :=
  fun w => (answer w, recorded ev w).

(** [Result.unwrap()] *)
Definition unwrap {SubmitResult T : Type} (E : Env SubmitResult) (r : Result T string) : Res T :=
  match r with
  | Ok t => Return t
  | Err e => Throw (unwrap_error E e)
  end.

(** ** [Engine] *)

(** [Uint8Array | string] *)
Inductive Input :=
| InputBytes (b : bytes)
| InputHex (s : string).

(** JS truthiness of [options.block]. *)
Definition truthy_block (b : Nullable BlockID) : bool :=
  match b with
  | Undefined | Null => false
  | Given (BlockNumber n) => negb (n =? 0)
  | Given (BlockString s) => negb (String.eqb s EmptyString)
  end.

(** [block + 1]: addition on a number, concatenation on a string. *)
Definition plus_one (b : BlockID) : BlockID :=
  match b with
  | BlockNumber n => BlockNumber (n + 1)
  | BlockString s => BlockString (s +:+ "1")
  end.

(** [x || 0] on a number. *)
Definition or_zero (x : N) : N := if x =? 0 then 0 else x.

(** The selector that a view call reads: [options?.block]. *)
Definition selector (options : option ViewOptions) : Nullable BlockID :=
  match options with
  | Some o => block o
  | None => Undefined
  end.

(** The fixed gas budget of a mutating call. *)
Definition gas : N := 300000000000000.

(** The marker of a panic raised by the contract. *)
Definition panic_marker : string := "Smart contract panicked: ".

Module Engine.
Section WithEnv.
Context {SubmitResult : Type} (E : Env SubmitResult).

(** [prepareInput(args)] *)
Definition prepareInput (args : option Input) : Res bytes :=
  match args with
  | None => Return []
  | Some (InputHex s) => parseHexString E s
  | Some (InputBytes b) => Return b
  end.

(** [errorWithDetails(message, details)] *)
Definition errorWithDetails (message : string) (details : TransactionErrorDetails.t) : string :=
  message +:+ "|" +:+ TransactionErrorDetails.stringify details.

(** [transactionGasBurned(id)] *)
Definition transactionGasBurned (id : option string) : M GasBurned :=
  try_catch
    (let* txHash := lift (base58ToBytes E id) in
     let* transactionStatus :=
       ask (EvTxStatus txHash (contractID E))
           (fun w => provider_txStatus E w txHash (contractID E)) in
     let receiptsGasBurned :=
       List.fold_left (fun sum value => sum + gas_burnt (outcome value))
                      (receipts_outcome transactionStatus) 0 in
     let* top := match transaction_outcome transactionStatus with
            | Some o => ret o
            | None => throw (TypeError "Cannot read properties of undefined")
            end in
     let transactionGasBurned := or_zero (gas_burnt (outcome top)) in
     ret (receiptsGasBurned + transactionGasBurned))
    (fun error => ret 0).

(** [callFunction(methodName, args, options)] *)
Definition callFunction (methodName : string) (args : option bytes)
    (options : option ViewOptions) : M (Result bytes Error) :=
  let* input := lift (prepareInput (InputBytes <$> args)) in
  let block := selector options in
  let request :=
    {| request_type := "call_function";
       account_id := contractID E;
       method_name := methodName;
       args_base64 := toString_base64 input;
       finality := match block with
                   | Undefined | Null => Some "final"
                   | Given _ => None
                   end;
       block_id := match block with
                   | Given b => Some b
                   | Undefined | Null => None
                   end |} in
  let* response := ask (EvQuery request) (fun w => provider_query E w request) in
  let* _ := match logs response with
       | Some (line :: lines) => emit (EvConsoleDebug (DebugLogs (line :: lines)))
       | Some [] | None => ret tt
       end in
  ret (Ok (result response)).

(** [this.keyStore.reKey()] *)
Definition reKey : M unit :=
  fun w => (Return tt, rekeyed w).

(** The [catch] block of [callMutativeFunction]: the [switch] on
    [error?.type]. *)
Definition callMutativeFunction_catch (error : JsError)
    : M (Result TransactionOutcome.t Error) :=
  if bool_decide (err_type error = Some "FunctionCallError") then
    let transactionId := err_transaction_outcome_id error in
    let* gasBurned := transactionGasBurned transactionId in
    let details :=
      {| TransactionErrorDetails.tx := transactionId;
         TransactionErrorDetails.gasBurned := gasBurned |} in
    match err_kind_ExecutionError error with
    | Some (String c errorKind') =>
        let errorKind := String c errorKind' in
        let errorCode := String_replace panic_marker EmptyString errorKind in
        ret (Err (errorWithDetails errorCode details))
    | Some EmptyString | None =>
        ret (Err (errorWithDetails (err_message error) details))
    end
  else if bool_decide (err_type error = Some "MethodNotFound") then
    ret (Err (err_message error))
  else
    let* _ := emit (EvConsoleDebug (DebugError error)) in
    ret (Err (err_toString error)).

(** [callMutativeFunction(methodName, args)] *)
Definition callMutativeFunction (methodName : string) (args : option bytes)
    : M (Result TransactionOutcome.t Error) :=
  let* _ := reKey in
  try_catch
    (let* input := lift (prepareInput (InputBytes <$> args)) in
     let* result :=
       ask (EvFunctionCall (contractID E) methodName input gas)
           (fun w => signer_functionCall E w (contractID E) methodName input gas) in
     match status result with
     | StatusObject (Some SuccessValue) =>
         let transactionId := id <$> transaction_outcome result in
         let* txid := lift (TransactionID_fromHex E (transaction_hash result)) in
         let output := Buffer_from_base64 E SuccessValue in
         let* gasBurned := transactionGasBurned transactionId in
         ret (Ok {| TransactionOutcome.id := txid;
                    TransactionOutcome.output := output;
                    TransactionOutcome.tx := transactionId;
                    TransactionOutcome.gasBurned := gasBurned |})
     | StatusObject None | StatusBasic _ => ret (Err (toString_ result))
     end)
    callMutativeFunction_catch.

(** [submit(input)] *)
Definition submit (input : Input)
    : M (Result (WrappedSubmitResult.t SubmitResult) Error) :=
  try_catch
    (let* inputBytes := lift (prepareInput (Some input)) in
     let* early :=
       try_catch
         (let* rawTransaction := lift (parseRawTransaction E inputBytes) in
          if gasLimit rawTransaction <? 21000
          then ret (Some (Err "ERR_INTRINSIC_GAS"))
          else ret None)
         (fun error => ret (Some (Err "ERR_INVALID_TX"))) in
     match early with
     | Some returned => ret returned
     | None =>
         let* r := callMutativeFunction "submit" (Some inputBytes) in
         match r with
         | Ok o =>
             let* decoded := lift (SubmitResult_decode E (TransactionOutcome.output o)) in
             ret (Ok {| WrappedSubmitResult.result := decoded;
                        WrappedSubmitResult.gasBurned := TransactionOutcome.gasBurned o;
                        WrappedSubmitResult.tx := TransactionOutcome.tx o |})
         | Err e => ret (Err e)
         end
     end)
    (fun error => ret (Err (err_message error))).

(** The caller's [options] object as [getCode] leaves it: a truthy
    [options.block] has become [options.block + 1]. *)
Definition getCode_options (options : option ViewOptions) : option ViewOptions :=
  match options with
  | Some o =>
      if truthy_block (block o)
      then match block o with
           | Given b => Some {| block := Given (plus_one b) |}
           | Undefined | Null => Some o
           end
      else Some o
  | None => None
  end.

(** [getCode(address, options)]: the object is updated in place before the
    query, which reads it. *)
Definition getCode (address : Address) (options : option ViewOptions)
    : M (Result bytes Error) :=
  let args := address in
  let options := getCode_options options in
  callFunction "get_code" (Some args) options.

(** [getAccount()] followed by [unwrap()] *)
Definition getAccount : M unit :=
  ask (EvAccount (contractID E)) (fun w => near_account E w (contractID E)).

(** [record_type == prefix], for [record_type = record.key[0]] ([None] is
    [undefined], which equals no number). *)
Definition is_prefix (record_type : option byte) (prefix : N) : bool :=
  match record_type with
  | Some b => Byte.to_N b =? prefix
  | None => false
  end.

(** One turn of the [for] loop of [getStorage] on the map [result]. *)
Definition getStorage_record (result : gmap string AddressState.t) (record : StateRecord)
    : Res (gmap string AddressState.t) :=
  let record_type := head (key record) in
  if is_prefix record_type EngineStorageKeyPrefix.Config then Return result
  else
    let key' :=
      if is_prefix record_type EngineStorageKeyPrefix.Storage
      then take 20 (drop 1 (key record))
      else drop 1 (key record) in
    let address := toString_hex key' in
    let created :=
      match result !! address with
      | Some _ => Return result
      | None =>
          match unwrap E (Address_parse E address) with
          | Return a => Return (<[address := AddressState.new a]> result)
          | Throw e => Throw e
          end
      end in
    match created with
    | Throw e => Throw e
    | Return result =>
        match result !! address with
        | None => Throw (TypeError "Cannot set properties of undefined")
        | Some state =>
            let state :=
              if is_prefix record_type EngineStorageKeyPrefix.Nonce then
                AddressState.mk (AddressState.address state)
                  (toBigIntBE (value record))
                  (AddressState.balance state) (AddressState.code state)
                  (AddressState.storage state)
              else if is_prefix record_type EngineStorageKeyPrefix.Balance then
                AddressState.mk (AddressState.address state) (AddressState.nonce state)
                  (toBigIntBE (value record))
                  (AddressState.code state) (AddressState.storage state)
              else if is_prefix record_type EngineStorageKeyPrefix.Code then
                AddressState.mk (AddressState.address state) (AddressState.nonce state)
                  (AddressState.balance state)
                  (Some (value record))
                  (AddressState.storage state)
              else if is_prefix record_type EngineStorageKeyPrefix.Storage then
                AddressState.mk (AddressState.address state) (AddressState.nonce state)
                  (AddressState.balance state) (AddressState.code state)
                  (<[toBigIntBE (drop 21 (key record)) := toBigIntBE (value record)]>
                     (AddressState.storage state))
              else state in
            Return (<[address := state]> result)
        end
    end.

(** The whole loop. *)
Fixpoint getStorage_loop (result : gmap string AddressState.t) (records : list StateRecord)
    : Res (gmap string AddressState.t) :=
  match records with
  | [] => Return result
  | record :: records' =>
      match getStorage_record result record with
      | Return result' => getStorage_loop result' records'
      | Throw e => Throw e
      end
  end.

(** [getStorage()] *)
Definition getStorage : M (Result (gmap string AddressState.t) Error) :=
  let* contractAccount := getAccount in
  let* records :=
    ask (EvViewState EmptyString "final")
        (fun w => account_viewState E w EmptyString "final") in
  let* result := lift (getStorage_loop ∅ records) in
  ret (Ok result).

End WithEnv.
End Engine.

(** ** The spec's own words, for comparison with the code *)

(** Spec 4.5: the gas-burned fields of the induced receipts, summed. *)
Definition receipts_gas_sum (receipts : list ExecutionOutcomeWithId) : N :=
  List.fold_right (fun value sum => gas_burnt (outcome value) + sum) 0 receipts.

(** Spec 4.5: the outcome of the status query for a transaction reference in
    a world: the total, when the reference decodes, the backend answers and
    the answer has a top-level outcome; nothing when the query fails. *)
Definition status_total {SubmitResult : Type} (E : Env SubmitResult)
    (id : option string) (w : World) : option N :=
  match base58ToBytes E id with
  | Return txHash =>
      match provider_txStatus E w txHash (contractID E) with
      | Return ts =>
          match transaction_outcome ts with
          | Some top => Some (receipts_gas_sum (receipts_outcome ts) + gas_burnt (outcome top))
          | None => None
          end
      | Throw _ => None
      end
  | Throw _ => None
  end.

(** The world in which the backend executes a mutating call, and the world
    when it has answered. *)
Definition at_call (w : World) : World := rekeyed w.

Definition after_call {SubmitResult : Type} (E : Env SubmitResult)
    (methodName : string) (args : option bytes) (w : World) : World :=
  recorded (EvFunctionCall (contractID E) methodName (default [] args) gas) (rekeyed w).

(** Spec 4.4: a message with a known prefix stripped; a message that does not
    start with the prefix is left as it is. *)
Definition strip_prefix (prefix s : string) : string :=
  if String.prefix prefix s
  then String.substring (String.length prefix) (String.length s - String.length prefix) s
  else s.

(** Spec 4.6, the state demultiplexer.  An Address State of the spec has a
    nonce, a balance, optional code and a storage mapping. *)
Module Demux.

Record State := mkState {
  nonce : N;
  balance : N;
  code : option bytes;
  storage : gmap N N
}.

(** "Zero nonce, zero balance, no code, empty storage". *)
Definition fresh : State :=
  {| nonce := 0; balance := 0; code := None; storage := ∅ |}.

(** The entry of an address: the one on file, or a fresh one for the first
    record seen. *)
Definition entry (m : gmap string State) (a : string) : State :=
  default fresh (m !! a).

(** The discriminators that the spec lists: 0x0 to 0x4. *)
Definition tagged (r : StateRecord) : bool :=
  match key r with
  | d :: _ => Byte.to_N d <=? 4
  | [] => false
  end.

(** The hex-encoded address that a record is about. *)
Definition address_of (r : StateRecord) : string :=
  match key r with
  | d :: rest =>
      if Byte.to_N d =? 4 then toString_hex (take 20 rest) else toString_hex rest
  | [] => EmptyString
  end.

Definition is_config (r : StateRecord) : bool :=
  match key r with
  | d :: _ => Byte.to_N d =? 0
  | [] => false
  end.

(** What one record does to the projection. *)
Definition step (m : gmap string State) (r : StateRecord) : gmap string State :=
  match key r with
  | [] => m
  | d :: rest =>
      let a := address_of r in
      let s := entry m a in
      match Byte.to_N d with
      | 0 => m
      | 1 => <[a := mkState (toBigIntBE (value r)) (balance s) (code s) (storage s)]> m
      | 2 => <[a := mkState (nonce s) (toBigIntBE (value r)) (code s) (storage s)]> m
      | 3 => <[a := mkState (nonce s) (balance s) (Some (value r)) (storage s)]> m
      | 4 => <[a := mkState (nonce s) (balance s) (code s)
                      (<[toBigIntBE (drop 20 rest) := toBigIntBE (value r)]> (storage s))]> m
      | _ => m
      end
  end.

Definition demux (records : list StateRecord) : gmap string State :=
  List.fold_left step records ∅.

(** The spec's Address State inside an [AddressState] of the code. *)
Definition view (st : AddressState.t) : State :=
  {| nonce := AddressState.nonce st;
     balance := AddressState.balance st;
     code := AddressState.code st;
     storage := AddressState.storage st |}.

(** Every Address State on file carries the address that its key parses
    to. *)
Definition keyed_by_address {SubmitResult : Type} (E : Env SubmitResult)
    (m : gmap string AddressState.t) : Prop :=
  forall a st, m !! a = Some st -> Address_parse E a = Ok (AddressState.address st).

(** The records of a scan that the spec describes: each key starts with a
    discriminator from 0x0 to 0x4 and, unless it is a Config record, names
    an address that [Address.parse] accepts. *)
Definition well_formed {SubmitResult : Type} (E : Env SubmitResult)
    (r : StateRecord) : Prop :=
  tagged r = true /\
  (is_config r = false -> exists a, Address_parse E (address_of r) = Ok a).

End Demux.

(** ** Concrete stores, worlds and backends for the examples *)

(** One key on file for one account of the bound network. *)
Definition one_key_store : InMemoryMultiKeyStore.t :=
  InMemoryMultiKeyStore.setKey "testnet" "alice.testnet" 7%nat
    (InMemoryMultiKeyStore.new "testnet").

(** Two keys for the same account, and one for another. *)
Definition two_key_store : InMemoryMultiKeyStore.t :=
  InMemoryMultiKeyStore.setKey "testnet" "bob.testnet" 9%nat
    (InMemoryMultiKeyStore.setKey "testnet" "alice.testnet" 8%nat one_key_store).

(** A source that always reports the same accounts, whatever the network. *)
#[global] Instance fixed_accounts_like : KeyStoreLike (list string) := {|
  ks_getKey := fun _ _ _ => None;
  ks_getAccounts := fun _ accounts => accounts
|}.

Definition demo_keyStore : KeyStore.t :=
  {| KeyStore.networkID := "testnet";
     KeyStore.keyStore := two_key_store;
     KeyStore.others :=
       [ mkSource _ fixed_accounts_like ["carol.testnet"; "alice.testnet"];
         mkSource _ InMemoryMultiKeyStore_like (InMemoryMultiKeyStore.new "mainnet") ] |}.

Definition demo_world : World := {| keyStore := demo_keyStore; trace := [] |}.

Definition thrown (type message : string) (tx kind : option string) : JsError :=
  {| err_type := Some type;
     err_message := message;
     err_toString := "Error: " +:+ message;
     err_transaction_outcome_id := tx;
     err_kind_ExecutionError := kind |}.

Definition demo_outcome (s : ExecutionStatus) : FinalExecutionOutcome :=
  {| status := s;
     transaction_hash := "9358e0";
     transaction_outcome := Some (mkExecutionOutcomeWithId "tx1" (mkExecutionOutcome 5));
     receipts_outcome :=
       [ mkExecutionOutcomeWithId "r1" (mkExecutionOutcome 10);
         mkExecutionOutcomeWithId "r2" (mkExecutionOutcome 20) ];
     toString_ := "[object Object]" |}.

(** The 20-byte address 0x0101...01 and a 32-byte slot key 0x00...01. *)
Definition addrA : bytes := List.repeat x01 20.
Definition slot1 : bytes := List.repeat x00 31 ++ [x01].

(** The error that [demo_env] raises for a panicking call. *)
Definition demo_panic : JsError :=
  thrown "FunctionCallError" "call failed" (Some "tx1")
    (Some "wasm trap: Smart contract panicked: boom").

Definition demo_details : TransactionErrorDetails.t :=
  {| TransactionErrorDetails.tx := Some "tx1";
     TransactionErrorDetails.gasBurned := 35 |}.

Definition demo_records : list StateRecord :=
  [ mkStateRecord (x01 :: addrA) [x05];
    mkStateRecord (x02 :: addrA) [x64];
    mkStateRecord (x04 :: addrA ++ slot1) [x07] ].

(** A backend for the examples.  The raw transaction parser reads the gas
    limit from the first two bytes; [functionCall] succeeds for [submit],
    reports no success value for [stall], does not know [missing], fails
    [abort] with an empty execution error, and panics, with the marker not in
    front, for every other method. *)
Definition demo_env : Env bytes :=
  {| contractID := "aurora";
     parseHexString := fun s => Throw (TypeError "invalid arrayify value");
     parseRawTransaction := fun b =>
       match b with
       | hi :: lo :: _ => Return (mkRawTransaction (Byte.to_N hi * 256 + Byte.to_N lo))
       | _ => Throw (TypeError "invalid raw transaction")
       end;
     base58ToBytes := fun ref =>
       match ref with
       | Some s => Return (list_byte_of_string s)
       | None => Throw (TypeError "Expected String")
       end;
     TransactionID_fromHex := fun h => Return (mkTransactionID h);
     Buffer_from_base64 := list_byte_of_string;
     SubmitResult_decode := fun b => Return b;
     Address_parse := fun s =>
       if (String.length s =? 40)%nat then Ok (list_byte_of_string s) else Err "invalid address";
     unwrap_error := fun e => mkJsError None e ("Error: " +:+ e) None None;
     near_account := fun _ _ => Return tt;
     account_viewState := fun _ _ _ => Return demo_records;
     provider_query := fun _ _ => Return (mkQueryResponse None [x2a]);
     signer_functionCall := fun _ _ methodName _ _ =>
       if String.eqb methodName "submit"
       then Return (demo_outcome (StatusObject (Some "AA==")))
       else if String.eqb methodName "stall"
       then Return (demo_outcome (StatusBasic Started))
       else if String.eqb methodName "missing"
       then Throw (thrown "MethodNotFound" "no such method" None None)
       else if String.eqb methodName "abort"
       then Throw (thrown "FunctionCallError" "execution aborted" (Some "tx1") (Some EmptyString))
       else Throw demo_panic;
     provider_txStatus := fun _ txHash _ =>
       match txHash with
       | [] => Throw (thrown "UntypedError" "unknown transaction" None None)
       | _ :: _ => Return (demo_outcome (StatusObject (Some "AA==")))
       end |}.


(** ** More of the key stores *)

(** The stores that [setKey], [removeKey], [clear] and [reKey] can produce
    from a new one: accounts on file once, each with a pool that is not empty
    and holds no key twice. *)
Definition well_kept (s : InMemoryMultiKeyStore.t) : Prop :=
  NoDup (JsMap.keys (InMemoryMultiKeyStore.store s)) /\
  Forall (fun entry => snd entry <> [] /\ NoDup (snd entry))
         (InMemoryMultiKeyStore.store s).

(** [n] calls of [reKey()]. *)
Fixpoint reKeys (n : nat) (s : InMemoryMultiKeyStore.t) : InMemoryMultiKeyStore.t :=
  match n with
  | O => s
  | S n' => reKeys n' (InMemoryMultiKeyStore.reKey s)
  end.

(** Loading key files into the merged store. *)
Module KeyFiles.
Section WithFiles.

(** [_loadKeyFile(keyFilePath)]: the account and the key pair that the file
    holds; reading the file, parsing its JSON and building the key are the
    libraries' work, and each can throw. *)
Variable _loadKeyFile : string -> Res (string * KeyPair).

(** [this.keyStores[0].setKey(this.networkID, accountID, keyPair)] *)
Definition store_key (accountID : string) (keyPair : KeyPair) (ks : KeyStore.t) : KeyStore.t :=
  {| KeyStore.networkID := KeyStore.networkID ks;
     KeyStore.keyStore :=
       InMemoryMultiKeyStore.setKey (KeyStore.networkID ks) accountID keyPair
         (KeyStore.keyStore ks);
     KeyStore.others := KeyStore.others ks |}.

(** [loadKeyFile(keyFilePath)] *)
Definition loadKeyFile (keyFilePath : string) (ks : KeyStore.t) : Res unit * KeyStore.t :=
  match _loadKeyFile keyFilePath with
  | Return (accountID, keyPair) => (Return tt, store_key accountID keyPair ks)
  | Throw e => (Throw e, ks)
  end.

(** [loadKeyFiles(keyFilePaths)] *)
Fixpoint loadKeyFiles (keyFilePaths : list string) (ks : KeyStore.t) : Res unit * KeyStore.t :=
  match keyFilePaths with
  | [] => (Return tt, ks)
  | keyFilePath :: keyFilePaths' =>
      match _loadKeyFile keyFilePath with
      | Return (accountID, keyPair) => loadKeyFiles keyFilePaths' (store_key accountID keyPair ks)
      | Throw e => (Throw e, ks)
      end
  end.

End WithFiles.
End KeyFiles.

(** Key files for the examples: one per account, and a broken one. *)
Definition demo_files (keyFilePath : string) : Res (string * KeyPair) :=
  if String.eqb keyFilePath "dave.json" then Return ("dave.testnet", 21%nat)
  else if String.eqb keyFilePath "erin.json" then Return ("erin.testnet", 22%nat)
  else Throw (TypeError "Unexpected end of JSON input").

(** ** More of the engine *)

(** Reading [Buffer.prototype.toString('hex')] back: the value of a hex
    digit, and the bytes of a string of digit pairs. *)
Definition hex_value (c : ascii) : option N :=
  let n := N_of_ascii c in
  if (48 <=? n) && (n <=? 57) then Some (n - 48)
  else if (97 <=? n) && (n <=? 102) then Some (n - 87)
  else None.

Fixpoint fromHex (s : string) : option bytes :=
  match s with
  | EmptyString => Some []
  | String hi (String lo s') =>
      match hex_value hi, hex_value lo, fromHex s' with
      | Some h, Some l, Some bs =>
          match Byte.of_N (h * 16 + l) with
          | Some b => Some (b :: bs)
          | None => None
          end
      | _, _, _ => None
      end
  | String _ EmptyString => None
  end.

(** [TransactionStatus] of schema.js, by the members that [view] reads:
    [success.output], [revert.output], and whether [outOfGas], [outOfFund],
    [outOfOffset] and [callTooDeep] are there ([None] and [false] stand for
    [undefined]). *)
Record TransactionStatus := mkTransactionStatus {
  success : option bytes;
  revert : option bytes;
  outOfGas : bool;
  outOfFund : bool;
  outOfOffset : bool;
  callTooDeep : bool
}.

(** What the [Err] inside the result of [view] carries. *)
Inductive ViewFailure :=
| OutOfGas
| OutOfFund
| OutOfOffset
| CallTooDeep
| NoData (message : string).

Module EngineCalls.
Section WithEnv.
Context {SubmitResult : Type} (E : Env SubmitResult).

(** [ViewCallArgs.encode()] for a sender, an address, an amount (through
    [toBufferBE(BigInt(amount), 32)]) and the input bytes, and
    [TransactionStatus.decode]; both belong to schema.js. *)
Variable ViewCallArgs_encode : Address -> Address -> N -> bytes -> bytes.
Variable TransactionStatus_decode : bytes -> Res TransactionStatus.

(** The request that [callFunction] builds. *)
Definition view_request (methodName : string) (args : option bytes)
    (options : option ViewOptions) : QueryRequest :=
  {| request_type := "call_function";
     account_id := contractID E;
     method_name := methodName;
     args_base64 := toString_base64 (default [] args);
     finality := match selector options with
                 | Given _ => None
                 | Undefined | Null => Some "final"
                 end;
     block_id := match selector options with
                 | Given b => Some b
                 | Undefined | Null => None
                 end |}.

(** [promiseAndThen(p, f)] *)
Definition promiseAndThen {T U Er : Type} (p : M (Result T Er)) (f : T -> M (Result U Er))
    : M (Result U Er) :=
  let* r := p in
  match r with
  | Ok t => f t
  | Err e => ret (Err e)
  end.

(** [initialize(options)], from the two argument buffers on: [newArgs] is
    [newArgs.encode()] and [connectorArgs] is [connectorArgs.encode()], which
    schema.js builds from the options. *)
Definition initialize (newArgs connectorArgs : bytes) : M (Result TransactionID Error) :=
  let* tx :=
    promiseAndThen
      (Engine.callMutativeFunction E "new" (Some newArgs))
      (fun _ => Engine.callMutativeFunction E "new_eth_connector" (Some connectorArgs)) in
  ret (Result_map TransactionOutcome.id tx).

(** The function that [view] maps over the output. *)
Definition view_status (status : TransactionStatus) : Result bytes ViewFailure :=
  match success status with
  | Some output => Ok output
  | None =>
      match revert status with
      | Some output => Ok output
      | None =>
          if outOfGas status then Err OutOfGas
          else if outOfFund status then Err OutOfFund
          else if outOfOffset status then Err OutOfOffset
          else if callTooDeep status then Err CallTooDeep
          else Err (NoData "Failed to retrieve data from the contract")
      end
  end.

(** [view(sender, address, amount, input, options)] *)
Definition view (sender address : Address) (amount : N) (input : Input)
    (options : option ViewOptions) : M (Result (Result bytes ViewFailure) Error) :=
  let* inputBytes := lift (Engine.prepareInput E (Some input)) in
  let args := ViewCallArgs_encode sender address amount inputBytes in
  let* result := Engine.callFunction E "view" (Some args) options in
  match result with
  | Ok output =>
      let* status := lift (TransactionStatus_decode output) in
      ret (Ok (view_status status))
  | Err e => ret (Err e)
  end.

(** [getBalance(address, options)] *)
Definition getBalance (address : Address) (options : option ViewOptions)
    : M (Result N Error) :=
  let args := address in
  let* result := Engine.callFunction E "get_balance" (Some args) options in
  ret (Result_map toBigIntBE result).

(** [getNonce(address, options)] *)
Definition getNonce (address : Address) (options : option ViewOptions)
    : M (Result N Error) :=
  let args := address in
  let* result := Engine.callFunction E "get_nonce" (Some args) options in
  ret (Result_map toBigIntBE result).

End WithEnv.
End EngineCalls.

(** The methods of the function calls in a trace, in order. *)
Definition function_calls (events : list Event) : list string :=
  omap (fun ev => match ev with
                  | EvFunctionCall _ methodName _ _ => Some methodName
                  | _ => None
                  end) events.

(** What the [switch] of [getStorage] makes of an Address State for one
    record. *)
Definition record_write (record : StateRecord) (state : AddressState.t) : AddressState.t :=
  let record_type := head (key record) in
  if Engine.is_prefix record_type EngineStorageKeyPrefix.Nonce then
    AddressState.mk (AddressState.address state)
      (toBigIntBE (value record))
      (AddressState.balance state) (AddressState.code state)
      (AddressState.storage state)
  else if Engine.is_prefix record_type EngineStorageKeyPrefix.Balance then
    AddressState.mk (AddressState.address state) (AddressState.nonce state)
      (toBigIntBE (value record))
      (AddressState.code state) (AddressState.storage state)
  else if Engine.is_prefix record_type EngineStorageKeyPrefix.Code then
    AddressState.mk (AddressState.address state) (AddressState.nonce state)
      (AddressState.balance state)
      (Some (value record))
      (AddressState.storage state)
  else if Engine.is_prefix record_type EngineStorageKeyPrefix.Storage then
    AddressState.mk (AddressState.address state) (AddressState.nonce state)
      (AddressState.balance state) (AddressState.code state)
      (<[toBigIntBE (drop 21 (key record)) := toBigIntBE (value record)]>
         (AddressState.storage state))
  else state.

(** A record that [getStorage] can take in: a Config record, or one that
    names an address that [Address.parse] accepts.  Its discriminator may be
    any byte, and it may have none. *)
Definition parses {SubmitResult : Type} (E : Env SubmitResult) (r : StateRecord) : Prop :=
  Demux.is_config r = false -> exists a, Address_parse E (Demux.address_of r) = Ok a.

(** The record is a write of the field with discriminator [tag] for the
    address [a]. *)
Definition writes (tag : N) (a : string) (r : StateRecord) : Prop :=
  Engine.is_prefix (head (key r)) tag = true /\ Demux.address_of r = a.

(** A scan with an account that does not parse in the middle. *)
Definition demo_bad_records : list StateRecord :=
  [ mkStateRecord (x01 :: addrA) [x05];
    mkStateRecord [x02; xff] [x64];
    mkStateRecord (x04 :: addrA ++ slot1) [x07] ].

(** A scan that writes the nonce of one address twice, with another write
    and another address in between, and a record with a discriminator that
    the engine does not know. *)
Definition addrB : bytes := List.repeat x02 20.

Definition demo_rewrites : list StateRecord :=
  [ mkStateRecord (x01 :: addrA) [x05];
    mkStateRecord (x02 :: addrA) [x64];
    mkStateRecord (x01 :: addrB) [x09];
    mkStateRecord (x01 :: addrA) [x01; x00];
    mkStateRecord (x00 :: addrA) [xff];
    mkStateRecord (x09 :: addrB) [xff] ].

(** A status decoder for the examples: the output is a revert output when
    it starts with the byte 0, a success output otherwise. *)
Definition demo_decode (output : bytes) : Res TransactionStatus :=
  match output with
  | x00 :: rest => Return (mkTransactionStatus None (Some rest) false false false false)
  | _ => Return (mkTransactionStatus (Some output) None false false false false)
  end.

Definition demo_encode (sender address : Address) (amount : N) (input : bytes) : bytes :=
  sender ++ address ++ input.

(** ** Counting the transactions of a block *)

(** A chunk header and a block, by the members that
    [getBlockTransactionCount] reads. *)
Record ChunkHeader := mkChunkHeader {
  tx_root : string;
  chunk_hash : string
}.

Record BlockResult := mkBlockResult {
  chunk_mask : list bool;
  chunks : list ChunkHeader
}.

(** The transaction root of a chunk without transactions. *)
Definition empty_tx_root : string := "11111111111111111111111111111111".

(** [chunks.filter((_, index) => chunk_mask[index])]: a chunk beyond the end
    of the mask meets [undefined] and is dropped. *)
Fixpoint masked (chunks : list ChunkHeader) (chunk_mask : list bool) : list ChunkHeader :=
  match chunks, chunk_mask with
  | chunk :: chunks', bit :: chunk_mask' =>
      if bit then chunk :: masked chunks' chunk_mask' else masked chunks' chunk_mask'
  | _, _ => []
  end.

Module BlockCount.
Section WithProvider.

(** [provider.block(parseBlockID(blockID))] and
    [provider.chunk(chunk_hash)], the latter by the number of transactions of
    the chunk it resolves to. *)
Variable provider_block : BlockID -> Res BlockResult.
Variable provider_chunk : string -> Res N.

(** Which of several rejected requests [Promise.all] reports depends on
    which is rejected first in time. *)
Variable first_rejected : list JsError -> JsError.

(** The chunks that get a request, in order: all requests are made before
    any is awaited. *)
Definition requested (block : BlockResult) : list string :=
  List.map chunk_hash
    (List.filter (fun chunkHeader => negb (String.eqb (tx_root chunkHeader) empty_tx_root))
       (masked (chunks block) (chunk_mask block))).

(** The outcome of the request of one chunk. *)
Definition request (chunkHeader : ChunkHeader) : Res N :=
  if String.eqb (tx_root chunkHeader) empty_tx_root then Return 0
  else provider_chunk (chunk_hash chunkHeader).

Definition rejections (outcomes : list (Res N)) : list JsError :=
  omap (fun outcome => match outcome with Throw e => Some e | Return _ => None end) outcomes.

Definition fulfilled (outcomes : list (Res N)) : list N :=
  omap (fun outcome => match outcome with Return n => Some n | Throw _ => None end) outcomes.

(** [getBlockTransactionCount(blockID)]: the result and the chunk hashes
    requested from the provider. *)
Definition getBlockTransactionCount (blockID : BlockID) : Result N Error * list string :=
  match provider_block blockID with
  | Throw error => (Err (err_message error), [])
  | Return block =>
      let requests := List.map request (masked (chunks block) (chunk_mask block)) in
      match rejections requests with
      | [] => (Ok (List.fold_left (fun a b => a + b) (fulfilled requests) 0), requested block)
      | error :: errors =>
          (Err (err_message (first_rejected (error :: errors))), requested block)
      end
  end.

End WithProvider.
End BlockCount.

(** A block for the examples: four chunks, the second masked out, the third
    without transactions; and a provider that knows the chunks [c1] and
    [c4]. *)
Definition demo_block : BlockResult :=
  {| chunk_mask := [true; false; true; true];
     chunks := [ mkChunkHeader "root1" "c1"; mkChunkHeader "root2" "c2";
                 mkChunkHeader empty_tx_root "c3"; mkChunkHeader "root4" "c4" ] |}.

Definition demo_chunk (chunk_hash : string) : Res N :=
  if String.eqb chunk_hash "c1" then Return 3
  else if String.eqb chunk_hash "c4" then Return 4
  else Throw (TypeError "unknown chunk").

(** * Properties *)

(** ** Containers *)

Section JsSetFacts.
Context {A : Type} (eqb : A -> A -> bool).
Hypothesis eqb_eq : forall x y, eqb x y = true <-> x = y.

Lemma existsb_eqb_elem_of (x : A) (s : list A) :
  List.existsb (eqb x) s = true <-> x ∈ s.
Proof.
  rewrite List.existsb_exists, list_elem_of_In. split.
  - intros (y & Hy & E). apply eqb_eq in E. now subst.
  - intros H. exists x. split; [assumption | now apply eqb_eq].
Qed.

Lemma JsSet_add_elem_of (x y : A) (s : list A) :
  y ∈ JsSet.add eqb x s <-> y = x \/ y ∈ s.
Proof.
  unfold JsSet.add. destruct (List.existsb (eqb x) s) eqn:E.
  - apply existsb_eqb_elem_of in E. split; [tauto | intros [-> | H]; assumption].
  - rewrite elem_of_app, list_elem_of_singleton. tauto.
Qed.

Lemma JsSet_add_NoDup (x : A) (s : list A) :
  NoDup s -> NoDup (JsSet.add eqb x s).
Proof.
  intros Hs. unfold JsSet.add. destruct (List.existsb (eqb x) s) eqn:E; [assumption|].
  assert (x ∉ s) as Hx.
  { intros H. apply existsb_eqb_elem_of in H. congruence. }
  apply NoDup_app. split; [assumption |]. split; [| apply NoDup_singleton].
  intros y Hy ->%list_elem_of_singleton. contradiction.
Qed.

Lemma JsSet_fold_spec (xs acc : list A) :
  NoDup acc ->
  NoDup (List.fold_left (fun s x => JsSet.add eqb x s) xs acc) /\
  forall y, y ∈ List.fold_left (fun s x => JsSet.add eqb x s) xs acc <-> y ∈ acc \/ y ∈ xs.
Proof.
  revert acc. induction xs as [| x xs IH]; intros acc Hacc; simpl.
  - split; [assumption |]. intros y. rewrite elem_of_nil. tauto.
  - destruct (IH (JsSet.add eqb x acc) (JsSet_add_NoDup x acc Hacc)) as [Hnd Hin].
    split; [assumption|].
    intros y. rewrite Hin, JsSet_add_elem_of, elem_of_cons. tauto.
Qed.

Lemma JsSet_of_list_NoDup (xs : list A) : NoDup (JsSet.of_list eqb xs).
Proof. apply JsSet_fold_spec. constructor. Qed.

Lemma JsSet_of_list_elem_of (xs : list A) (y : A) :
  y ∈ JsSet.of_list eqb xs <-> y ∈ xs.
Proof.
  unfold JsSet.of_list.
  destruct (JsSet_fold_spec xs [] (NoDup_nil_2 (A:=A))) as [_ H].
  rewrite H, elem_of_nil. tauto.
Qed.
End JsSetFacts.

(** ** The merged key store *)

Section MergedAccounts.
Import KeyStore.

Lemma Array_sort_elem_of (l : list string) (a : string) :
  a ∈ Array_sort l <-> a ∈ l.
Proof. unfold Array_sort. now rewrite merge_sort_Permutation. Qed.

Lemma MergeKeyStore_getAccounts_elem_of (ks : KeyStore.t) (networkID' a : string) :
  a ∈ MergeKeyStore_getAccounts networkID' ks <->
  exists src, src ∈ keyStores ks /\ a ∈ source_getAccounts networkID' src.
Proof.
  unfold MergeKeyStore_getAccounts.
  rewrite (JsSet_of_list_elem_of String.eqb String.eqb_eq).
  rewrite list_elem_of_In, List.in_concat. split.
  - intros (l & Hl & Ha). apply List.in_map_iff in Hl as (src & <- & Hsrc).
    exists src. now rewrite !list_elem_of_In.
  - intros (src & Hsrc & Ha). exists (source_getAccounts networkID' src).
    rewrite <- !list_elem_of_In. split; [| assumption].
    apply list_elem_of_In, List.in_map, list_elem_of_In, Hsrc.
Qed.

(** C8. [getAccounts()] of the merged store returns exactly the account
    identifiers that some source reports for the bound network (the union),
    each once, in ascending order of their code units. *)
Theorem getAccounts_sorted_union (ks : KeyStore.t) :
  (forall a, a ∈ getAccounts ks <->
     exists src, src ∈ keyStores ks /\ a ∈ source_getAccounts (networkID ks) src) /\
  NoDup (getAccounts ks) /\
  StronglySorted String.le (getAccounts ks).
Proof.
  unfold getAccounts. split; [| split].
  - intros a.
    rewrite Array_sort_elem_of, (JsSet_of_list_elem_of String.eqb String.eqb_eq).
    apply MergeKeyStore_getAccounts_elem_of.
  - unfold Array_sort. rewrite merge_sort_Permutation.
    apply (JsSet_of_list_NoDup String.eqb String.eqb_eq).
  - apply StronglySorted_merge_sort; apply _.
Qed.
End MergedAccounts.

(** ** The in-memory multi-key store *)

Section MultiKeyStore.
Import InMemoryMultiKeyStore.

Lemma network_mismatch (M : string) (s : t) :
  M <> networkID s -> negb (String.eqb M (networkID s)) = true.
Proof. intros H. apply negb_true_iff, String.eqb_neq, H. Qed.

Lemma network_match (s : t) : negb (String.eqb (networkID s) (networkID s)) = false.
Proof. now rewrite String.eqb_refl. Qed.

(** C5, as stated, fails for [clear]: the method takes no network, so a
    caller that has another network in hand still empties the pool
    mapping. *)
Lemma clear_is_not_a_noop :
  "mainnet" <> networkID one_key_store /\
  store (clear one_key_store) <> store one_key_store.
Proof. split; intros H; discriminate H. Qed.

(** C5 (amended). A call of [setKey], [removeKey], [getKey] or
    [getAccounts] that names a network other than the bound one changes
    nothing: the two writers return the store as it was, the two readers
    answer [undefined] and the empty list.  No operation changes the bound
    network.  [clear()] has no network parameter and always leaves the pool
    mapping empty. *)
Theorem mismatched_network_is_noop (s : t) (M accountID : string) (keyPair : KeyPair) :
  M <> networkID s ->
  setKey M accountID keyPair s = s /\
  removeKey M accountID s = s /\
  getKey M accountID s = None /\
  getAccounts M s = [] /\
  (forall N a kp, networkID (setKey N a kp s) = networkID s) /\
  (forall N a, networkID (removeKey N a s) = networkID s) /\
  networkID (clear s) = networkID s /\
  networkID (reKey s) = networkID s /\
  store (clear s) = [].
Proof.
  intros HM. pose proof (network_mismatch M s HM) as E.
  unfold setKey, removeKey, getKey, getAccounts. rewrite E.
  repeat split; try reflexivity.
  - intros N a kp. now destruct (negb (String.eqb N (networkID s))).
  - intros N a. now destruct (negb (String.eqb N (networkID s))).
Qed.

Lemma mismatched_network_is_noop_witness :
  setKey "mainnet" "bob.near" 9%nat one_key_store = one_key_store /\
  removeKey "mainnet" "alice.testnet" one_key_store = one_key_store.
Proof.
  destruct (mismatched_network_is_noop one_key_store "mainnet" "bob.near" 9%nat)
    as (H1 & _); [ discriminate |].
  destruct (mismatched_network_is_noop one_key_store "mainnet" "alice.testnet" 9%nat)
    as (_ & H2 & _); [ discriminate |].
  split; assumption.
Defined.
End MultiKeyStore.
Section Rotation.
Import InMemoryMultiKeyStore.

Lemma getKey_bound (s : t) (accountID : string) :
  pool s accountID <> [] ->
  getKey (networkID s) accountID s = selected (pool s accountID) (reKeyCounter s).
Proof.
  intros Hne. unfold getKey. rewrite network_match. cbv zeta.
  destruct (pool s accountID) as [| kp ks] eqn:E; [congruence | reflexivity].
Qed.

Lemma selected_index (keyPairs : list KeyPair) (c : N) (i : nat) :
  (0 < length keyPairs)%nat ->
  N.to_nat ((c + N.of_nat (S i)) mod N.of_nat (length keyPairs)) =
  rotate_nat_add (N.to_nat (c + 1)) i (length keyPairs).
Proof.
  intros Hk. unfold rotate_nat_add.
  apply Nat2Z.inj. rewrite N_nat_Z, N2Z.inj_mod.
  rewrite Z2Nat.id by (apply Z.mod_pos_bound; lia).
  f_equal; lia.
Qed.

Lemma selected_is_Some (keyPairs : list KeyPair) (c : N) :
  (0 < length keyPairs)%nat -> is_Some (selected keyPairs c).
Proof.
  intros Hk. apply lookup_lt_is_Some.
  pose proof (N.mod_upper_bound c (N.of_nat (length keyPairs))). lia.
Qed.

Lemma rounds_fmap (n : nat) (accountID : string) (s : t) :
  pool s accountID <> [] ->
  rounds n accountID s =
  (fun i => selected (pool s accountID) (reKeyCounter s + N.of_nat (S i))) <$> seq 0 n.
Proof.
  intros Hne. revert s Hne. induction n as [| n IH]; intros s Hne; [reflexivity|].
  cbn [rounds seq fmap list_fmap].
  assert (pool (reKey s) accountID = pool s accountID) as Hp by reflexivity.
  rewrite (getKey_bound (reKey s)), Hp by (rewrite Hp; exact Hne).
  f_equal.
  rewrite IH, Hp by (rewrite Hp; exact Hne).
  rewrite <- fmap_S_seq, <- list_fmap_compose.
  apply list_fmap_ext. intros _ i _. simpl. f_equal. lia.
Qed.

Lemma rotate_Permutation {A} (n : nat) (l : list A) : rotate n l ≡ₚ l.
Proof.
  unfold rotate. rewrite Permutation_app_comm. now rewrite take_drop.
Qed.

Lemma rounds_rotate (accountID : string) (s : t) :
  pool s accountID <> [] ->
  rounds (length (pool s accountID)) accountID s =
  Some <$> rotate (N.to_nat (reKeyCounter s + 1)) (pool s accountID).
Proof.
  intros Hne. rewrite rounds_fmap by assumption.
  set (ks := pool s accountID) in *.
  assert (0 < length ks)%nat as Hk by (destruct ks; [congruence | simpl; lia]).
  apply list_eq. intros i. rewrite !list_lookup_fmap.
  destruct (decide (i < length ks)%nat) as [Hi | Hi].
  - rewrite lookup_seq_lt by assumption. simpl.
    rewrite lookup_rotate_r by assumption.
    unfold selected. rewrite selected_index by assumption.
    destruct (lookup_lt_is_Some_2 ks (rotate_nat_add (N.to_nat (reKeyCounter s + 1)) i (length ks)))
      as [kp ->]; [ apply rotate_nat_add_lt; assumption | reflexivity ].
  - rewrite lookup_seq_ge by lia. simpl.
    rewrite (lookup_ge_None_2 (rotate _ ks)); [reflexivity|].
    rewrite length_rotate. lia.
Qed.

Lemma rounds_period (accountID : string) (s : t) :
  pool s accountID <> [] ->
  let k := length (pool s accountID) in
  rounds (k + k) accountID s = rounds k accountID s ++ rounds k accountID s.
Proof.
  intros Hne k. rewrite !rounds_fmap by assumption.
  rewrite seq_app, fmap_app. f_equal.
  replace (0 + k)%nat with (k + 0)%nat by lia.
  rewrite <- (fmap_add_seq k 0 k), <- list_fmap_compose.
  apply list_fmap_ext. intros _ i _. simpl. unfold selected.
  fold k. f_equal. f_equal.
  replace (reKeyCounter s + N.of_nat (S (k + i)))
    with (reKeyCounter s + N.of_nat (S i) + 1 * N.of_nat k) by lia.
  apply N.Div0.mod_add.
Qed.

(** C1. [getKey] never raises (it is a total function to an optional key).
    It answers [undefined] when the network is not the bound one, when the
    account has no pool and when its pool is empty.  For a pool of [k >= 1]
    keys it answers the member at index [reKeyCounter mod k] in the pool's
    insertion order, and [k] rounds of [reKey()] then [getKey()] hand out
    the pool rotated by the counter: every key once, in that order, after
    which the same [k] answers come again.  The counter is a number that
    [reKey()] increments exactly, as JS does below 2^53. *)
Theorem getKey_round_robin (s : t) (accountID : string) :
  let keyPairs := pool s accountID in
  let k := length keyPairs in
  (forall M, M <> networkID s -> getKey M accountID s = None) /\
  (JsMap.get accountID (store s) = None -> getKey (networkID s) accountID s = None) /\
  (keyPairs = [] -> getKey (networkID s) accountID s = None) /\
  ((1 <= k)%nat ->
     getKey (networkID s) accountID s
       = keyPairs !! N.to_nat (reKeyCounter s mod N.of_nat k) /\
     (exists keyPair, getKey (networkID s) accountID s = Some keyPair /\ keyPair ∈ keyPairs) /\
     rounds k accountID s = Some <$> rotate (N.to_nat (reKeyCounter s + 1)) keyPairs /\
     rounds k accountID s ≡ₚ Some <$> keyPairs /\
     rounds (k + k) accountID s = rounds k accountID s ++ rounds k accountID s).
Proof.
  intros keyPairs k. split; [| split; [| split]].
  - intros M HM. unfold getKey. now rewrite network_mismatch.
  - intros Habs. unfold getKey, pool. now rewrite network_match, Habs.
  - intros Hemp. unfold getKey. fold keyPairs. now rewrite network_match, Hemp.
  - intros Hk.
    assert (keyPairs <> []) as Hne by (intros E; subst k; rewrite E in Hk; simpl in Hk; lia).
    split; [| split; [| split; [| split]]].
    + now apply getKey_bound.
    + rewrite getKey_bound by assumption.
      destruct (selected_is_Some keyPairs (reKeyCounter s)) as [kp Hkp]; [fold k; lia|].
      exists kp. split; [assumption|]. eapply list_elem_of_lookup_2, Hkp.
    + now apply rounds_rotate.
    + subst k keyPairs. rewrite rounds_rotate by assumption.
      now rewrite rotate_Permutation.
    + now apply rounds_period.
Qed.
End Rotation.

(** ** View calls *)

Section ViewCalls.
Context {SubmitResult : Type} (E : Env SubmitResult).
Import Engine.

(** What [callFunction] does: one query, recorded first, then at most a
    line on the console. *)
Lemma callFunction_trace (methodName : string) (args : option bytes)
    (options : option ViewOptions) (w : World) :
  exists rest,
    trace (snd (callFunction E methodName args options w)) =
      trace w ++
      EvQuery {| request_type := "call_function";
                 account_id := contractID E;
                 method_name := methodName;
                 args_base64 := toString_base64 (default [] args);
                 finality := match selector options with
                             | Given _ => None
                             | Undefined | Null => Some "final"
                             end;
                 block_id := match selector options with
                             | Given b => Some b
                             | Undefined | Null => None
                             end |} :: rest /\
    Forall (fun ev => is_backend_call ev = false) rest.
Proof.
  unfold callFunction, bind, lift, ask, emit, ret, selector.
  destruct args as [b |]; simpl;
    match goal with
    | |- context [provider_query E ?w ?r] => destruct (provider_query E w r) as [resp | e]
    end; simpl.
  1, 3: destruct (logs resp) as [[| line lines] |]; simpl.
  all: try (eexists; split; [ rewrite <- ?app_assoc; reflexivity | repeat constructor ]).
Qed.

(** C6. [callFunction] sends one query to the backend.  Without a block
    selector ([options] or [options.block] missing, or [null]) the request
    has finality ['final'] and no block identifier; with a selector it has
    that selector as block identifier and no finality; so exactly one of
    the two is sent.  The argument bytes go out in base64, and omitted
    arguments go out as the empty byte string. *)
Theorem callFunction_request (methodName : string) (args : option bytes)
    (options : option ViewOptions) (w : World) :
  exists request rest,
    trace (snd (callFunction E methodName args options w))
      = trace w ++ EvQuery request :: rest /\
    Forall (fun ev => is_backend_call ev = false) rest /\
    request_type request = "call_function" /\
    method_name request = methodName /\
    match selector options with
    | Undefined | Null => finality request = Some "final" /\ block_id request = None
    | Given b => finality request = None /\ block_id request = Some b
    end /\
    (finality request = None <-> block_id request <> None) /\
    args_base64 request = toString_base64 (default [] args) /\
    (args = None -> args_base64 request = EmptyString).
Proof.
  destruct (callFunction_trace methodName args options w) as (rest & Htrace & Hrest).
  eexists; exists rest. split; [exact Htrace |]. split; [exact Hrest |]. simpl.
  repeat split; try (now intros ->).
  - destruct (selector options); split; reflexivity.
  - destruct (selector options); [discriminate.. | intros _; discriminate].
  - destruct (selector options); [intros []; reflexivity.. | reflexivity].
Qed.

(** Ahead of C10: a block height other than 0 reaches the backend
    incremented, and the caller's object holds the incremented height. *)
Lemma getCode_block_height (address : Address) (n : N) (w : World) :
  n <> 0 ->
  let options := Some {| block := Given (BlockNumber n) |} in
  getCode_options options = Some {| block := Given (BlockNumber (n + 1)) |} /\
  exists request rest,
    trace (snd (getCode E address options w)) = trace w ++ EvQuery request :: rest /\
    block_id request = Some (BlockNumber (n + 1)) /\
    finality request = None.
Proof.
  intros Hn options.
  assert (getCode_options options = Some {| block := Given (BlockNumber (n + 1)) |}) as Hopt.
  { unfold getCode_options, options; simpl. now apply N.eqb_neq in Hn as ->. }
  split; [exact Hopt |].
  unfold getCode. rewrite Hopt.
  destruct (callFunction_trace "get_code" (Some address)
              (Some {| block := Given (BlockNumber (n + 1)) |}) w) as (rest & Htrace & _).
  eexists; exists rest. split; [exact Htrace |]. split; reflexivity.
Qed.

(** C10, at block height 0.  [options.block] is falsy, so [getCode] leaves
    the caller's object as it is and the query goes out for block 0, not
    for block 1. *)
Theorem getCode_block_zero (address : Address) (w : World) :
  let options := Some {| block := Given (BlockNumber 0) |} in
  getCode_options options = options /\
  exists request rest,
    trace (snd (getCode E address options w)) = trace w ++ EvQuery request :: rest /\
    block_id request = Some (BlockNumber 0) /\
    finality request = None.
Proof.
  intros options. split; [reflexivity |].
  unfold getCode. change (getCode_options options) with options.
  destruct (callFunction_trace "get_code" (Some address) options w) as (rest & Htrace & _).
  eexists; exists rest. split; [exact Htrace |]. split; reflexivity.
Qed.
End ViewCalls.

(** ** Gas accounting *)

Section GasAccounting.
Context {SubmitResult : Type} (E : Env SubmitResult).
Import Engine.

Lemma fold_left_gas (receipts : list ExecutionOutcomeWithId) (acc : N) :
  List.fold_left (fun sum value => sum + gas_burnt (outcome value)) receipts acc
  = acc + receipts_gas_sum receipts.
Proof.
  revert acc. induction receipts as [| r receipts IH]; intros acc; simpl.
  - lia.
  - rewrite IH. lia.
Qed.

Lemma or_zero_id (x : N) : or_zero x = x.
Proof. unfold or_zero. destruct (N.eqb_spec x 0); congruence. Qed.

Lemma transactionGasBurned_value (id : option string) (w : World) :
  fst (transactionGasBurned E id w) = Return (default 0 (status_total E id w)).
Proof.
  unfold transactionGasBurned, status_total, try_catch, bind, lift, ask, ret, throw.
  destruct (base58ToBytes E id) as [txHash | e]; simpl; [| reflexivity].
  destruct (provider_txStatus E w txHash (contractID E)) as [ts | e]; simpl; [| reflexivity].
  destruct (transaction_outcome ts) as [top |]; simpl; [| reflexivity].
  now rewrite fold_left_gas, or_zero_id.
Qed.

Lemma transactionGasBurned_world (id : option string) (w : World) :
  snd (transactionGasBurned E id w) =
  match base58ToBytes E id with
  | Return txHash => recorded (EvTxStatus txHash (contractID E)) w
  | Throw _ => w
  end.
Proof.
  unfold transactionGasBurned, try_catch, bind, lift, ask, ret, throw.
  destruct (base58ToBytes E id) as [txHash | e]; simpl; [| reflexivity].
  destruct (provider_txStatus E w txHash (contractID E)) as [ts | e]; simpl; [| reflexivity].
  destruct (transaction_outcome ts) as [top |]; reflexivity.
Qed.

Lemma transactionGasBurned_eq (id : option string) (w : World) :
  transactionGasBurned E id w =
  (Return (default 0 (status_total E id w)), snd (transactionGasBurned E id w)).
Proof.
  rewrite <- transactionGasBurned_value. now destruct (transactionGasBurned E id w).
Qed.

Lemma callMutativeFunction_eq (methodName : string) (args : option bytes) (w : World) :
  callMutativeFunction E methodName args w =
  match signer_functionCall E (at_call w) (contractID E) methodName (default [] args) gas with
  | Return result =>
      match status result with
      | StatusObject (Some SuccessValue) =>
          match TransactionID_fromHex E (transaction_hash result) with
          | Return txid =>
              let transactionId := id <$> transaction_outcome result in
              let w1 := after_call E methodName args w in
              (Return (Ok {| TransactionOutcome.id := txid;
                             TransactionOutcome.output := Buffer_from_base64 E SuccessValue;
                             TransactionOutcome.tx := transactionId;
                             TransactionOutcome.gasBurned :=
                               default 0 (status_total E transactionId w1) |}),
               snd (transactionGasBurned E transactionId w1))
          | Throw e => callMutativeFunction_catch E e (after_call E methodName args w)
          end
      | StatusObject None | StatusBasic _ =>
          (Return (Err (toString_ result)), after_call E methodName args w)
      end
  | Throw e => callMutativeFunction_catch E e (after_call E methodName args w)
  end.
Proof.
  unfold callMutativeFunction, at_call, after_call.
  unfold bind at 1. unfold reKey at 1. unfold try_catch, bind, lift, ask, ret.
  destruct args as [b |]; simpl;
    match goal with
    | |- context [signer_functionCall E ?w ?c ?m ?i ?g] =>
        destruct (signer_functionCall E w c m i g) as [result | e]
    end; simpl; try reflexivity.
  all: destruct (status result) as [basic | [SuccessValue |]]; simpl; try reflexivity.
  all: destruct (TransactionID_fromHex E (transaction_hash result)) as [txid | e];
    simpl; try reflexivity.
  all: rewrite transactionGasBurned_eq; reflexivity.
Qed.

Lemma callMutativeFunction_catch_eq (error : JsError) (w : World) :
  callMutativeFunction_catch E error w =
  if bool_decide (err_type error = Some "FunctionCallError") then
    let transactionId := err_transaction_outcome_id error in
    let details :=
      {| TransactionErrorDetails.tx := transactionId;
         TransactionErrorDetails.gasBurned := default 0 (status_total E transactionId w) |} in
    (Return (Err (errorWithDetails
                    match err_kind_ExecutionError error with
                    | Some (String c text) => String_replace panic_marker EmptyString (String c text)
                    | Some EmptyString | None => err_message error
                    end details)),
     snd (transactionGasBurned E transactionId w))
  else if bool_decide (err_type error = Some "MethodNotFound") then
    (Return (Err (err_message error)), w)
  else
    (Return (Err (err_toString error)), recorded (EvConsoleDebug (DebugError error)) w).
Proof.
  unfold callMutativeFunction_catch.
  destruct (bool_decide (err_type error = Some "FunctionCallError")).
  - unfold bind. rewrite transactionGasBurned_eq.
    destruct (err_kind_ExecutionError error) as [[| c text] |]; reflexivity.
  - destruct (bool_decide (err_type error = Some "MethodNotFound")); reflexivity.
Qed.

Lemma transactionGasBurned_trace (id : option string) (w : World) :
  exists rest, trace (snd (transactionGasBurned E id w)) = trace w ++ rest.
Proof.
  rewrite transactionGasBurned_world. destruct (base58ToBytes E id).
  - eexists. reflexivity.
  - exists []. now rewrite app_nil_r.
Qed.

Lemma callMutativeFunction_catch_trace (error : JsError) (w : World) :
  exists rest, trace (snd (callMutativeFunction_catch E error w)) = trace w ++ rest.
Proof.
  rewrite callMutativeFunction_catch_eq.
  destruct (bool_decide (err_type error = Some "FunctionCallError")); simpl.
  - apply transactionGasBurned_trace.
  - destruct (bool_decide (err_type error = Some "MethodNotFound")); simpl.
    + exists []. now rewrite app_nil_r.
    + eexists. reflexivity.
Qed.

(** A mutating call records the function call first. *)
Lemma callMutativeFunction_trace (methodName : string) (args : option bytes) (w : World) :
  exists rest,
    trace (snd (callMutativeFunction E methodName args w)) =
    trace w ++ EvFunctionCall (contractID E) methodName (default [] args) gas :: rest.
Proof.
  rewrite callMutativeFunction_eq.
  assert (forall w', (exists rest, trace w' = trace (after_call E methodName args w) ++ rest) ->
          exists rest, trace w' =
            trace w ++ EvFunctionCall (contractID E) methodName (default [] args) gas :: rest)
    as Hext.
  { intros w' (rest & ->). exists rest. unfold after_call, recorded, rekeyed; simpl.
    now rewrite <- app_assoc. }
  destruct (signer_functionCall E (at_call w) (contractID E) methodName (default [] args) gas)
    as [result | e].
  - destruct (status result) as [basic | [SuccessValue |]].
    + apply Hext. exists []. now rewrite app_nil_r.
    + destruct (TransactionID_fromHex E (transaction_hash result)); cbv zeta.
      * apply Hext, transactionGasBurned_trace.
      * apply Hext, callMutativeFunction_catch_trace.
    + apply Hext. exists []. now rewrite app_nil_r.
  - apply Hext, callMutativeFunction_catch_trace.
Qed.

Lemma callMutativeFunction_returns (methodName : string) (args : option bytes) (w : World) :
  exists r, fst (callMutativeFunction E methodName args w) = Return r.
Proof.
  rewrite callMutativeFunction_eq.
  assert (forall e w', exists r, fst (callMutativeFunction_catch E e w') = Return r) as Hc.
  { intros e w'. rewrite callMutativeFunction_catch_eq.
    destruct (bool_decide (err_type e = Some "FunctionCallError")); [eexists; reflexivity |].
    destruct (bool_decide (err_type e = Some "MethodNotFound")); eexists; reflexivity. }
  destruct (signer_functionCall E (at_call w) (contractID E) methodName (default [] args) gas)
    as [result | e]; [| apply Hc].
  destruct (status result) as [basic | [SuccessValue |]]; simpl; try (eexists; reflexivity).
  destruct (TransactionID_fromHex E (transaction_hash result)); simpl;
    [eexists; reflexivity | apply Hc].
Qed.

(** C4. The total that [transactionGasBurned] reports is the sum of
    [gas_burnt] over the receipts' outcomes plus the [gas_burnt] of the
    top-level transaction outcome.  When the reference cannot be decoded
    (a missing reference) or the status query throws, the total is 0.  The
    function always returns, so a mutating call that succeeded still
    returns [Ok]; its [gasBurned] is the total of the status query for its
    own transaction reference, made once the backend has answered the call,
    and 0 when that query failed. *)
Theorem gas_burned_total (transactionId : option string) (w : World) :
  (forall txHash ts top,
      base58ToBytes E transactionId = Return txHash ->
      provider_txStatus E w txHash (contractID E) = Return ts ->
      transaction_outcome ts = Some top ->
      fst (transactionGasBurned E transactionId w)
        = Return (receipts_gas_sum (receipts_outcome ts) + gas_burnt (outcome top))) /\
  (forall e, base58ToBytes E transactionId = Throw e ->
      transactionGasBurned E transactionId w = (Return 0, w)) /\
  (forall txHash e,
      base58ToBytes E transactionId = Return txHash ->
      provider_txStatus E w txHash (contractID E) = Throw e ->
      fst (transactionGasBurned E transactionId w) = Return 0) /\
  (exists total, fst (transactionGasBurned E transactionId w) = Return total) /\
  (forall methodName args result SuccessValue txid,
      signer_functionCall E (at_call w) (contractID E) methodName (default [] args) gas
        = Return result ->
      status result = StatusObject (Some SuccessValue) ->
      TransactionID_fromHex E (transaction_hash result) = Return txid ->
      exists o,
        fst (callMutativeFunction E methodName args w) = Return (Ok o) /\
        TransactionOutcome.tx o = (id <$> transaction_outcome result) /\
        TransactionOutcome.gasBurned o
          = default 0 (status_total E (id <$> transaction_outcome result)
                         (after_call E methodName args w))).
Proof.
  split; [| split; [| split; [| split]]].
  - intros txHash ts top Hb Hs Ht.
    rewrite transactionGasBurned_value. unfold status_total. now rewrite Hb, Hs, Ht.
  - intros e Hb. rewrite transactionGasBurned_eq, transactionGasBurned_world.
    unfold status_total. now rewrite Hb.
  - intros txHash e Hb Hs.
    rewrite transactionGasBurned_value. unfold status_total. now rewrite Hb, Hs.
  - eexists. apply transactionGasBurned_value.
  - intros methodName args result SuccessValue txid Hcall Hstatus Hid.
    rewrite callMutativeFunction_eq, Hcall, Hstatus, Hid. cbv zeta.
    eexists. split; [reflexivity |]. split; reflexivity.
Qed.

(** C9. When the backend answers a mutating call without raising and the
    answer's status is not an object with a string [SuccessValue], the call
    returns [Err] with the answer's [toString()], and asks the backend
    nothing more. *)
Theorem missing_success_value (methodName : string) (args : option bytes)
    (w : World) (result : FinalExecutionOutcome) :
  signer_functionCall E (at_call w) (contractID E) methodName (default [] args) gas
    = Return result ->
  (forall SuccessValue, status result <> StatusObject (Some SuccessValue)) ->
  callMutativeFunction E methodName args w
    = (Return (Err (toString_ result)), after_call E methodName args w).
Proof.
  intros Hcall Hstatus. rewrite callMutativeFunction_eq, Hcall.
  destruct (status result) as [basic | [SuccessValue |]]; try reflexivity.
  now destruct (Hstatus SuccessValue).
Qed.

Lemma String_replace_prefix (searchValue s : string) :
  String.prefix searchValue s = true ->
  String_replace searchValue EmptyString s = strip_prefix searchValue s.
Proof.
  intros H. unfold strip_prefix. rewrite H.
  destruct s; simpl; simpl in H; now rewrite H.
Qed.

(** C7 (amended). A mutating call that the backend fails with an error of
    type [FunctionCallError] whose [ExecutionError] text is not empty
    returns [Err] of: the text without the first occurrence of
    ['Smart contract panicked: '] (its prefix, when the text starts with
    it), then ['|'], then the JSON of the details, which hold the
    transaction reference of the error, when it has one, and the gas burned
    as [transactionGasBurned] reports it for that reference.  For type
    [MethodNotFound] the call returns [Err] of the error's message and asks
    the backend nothing more.  For any other type it returns [Err] of the
    error's [toString()]. *)
Theorem backend_error_classification (methodName : string) (args : option bytes)
    (w : World) (error : JsError) :
  signer_functionCall E (at_call w) (contractID E) methodName (default [] args) gas
    = Throw error ->
  let w1 := after_call E methodName args w in
  (err_type error = Some "FunctionCallError" ->
   forall text, err_kind_ExecutionError error = Some text -> text <> EmptyString ->
   exists gasBurned,
     fst (transactionGasBurned E (err_transaction_outcome_id error) w1) = Return gasBurned /\
     fst (callMutativeFunction E methodName args w)
       = Return (Err (String_replace panic_marker EmptyString text +:+ "|" +:+
                      TransactionErrorDetails.stringify
                        {| TransactionErrorDetails.tx := err_transaction_outcome_id error;
                           TransactionErrorDetails.gasBurned := gasBurned |})) /\
     (String.prefix panic_marker text = true ->
      String_replace panic_marker EmptyString text = strip_prefix panic_marker text)) /\
  (err_type error = Some "MethodNotFound" ->
   callMutativeFunction E methodName args w = (Return (Err (err_message error)), w1)) /\
  (err_type error <> Some "FunctionCallError" ->
   err_type error <> Some "MethodNotFound" ->
   fst (callMutativeFunction E methodName args w) = Return (Err (err_toString error))).
Proof.
  intros Hcall w1. rewrite callMutativeFunction_eq, Hcall, callMutativeFunction_catch_eq.
  fold w1. split; [| split].
  - intros Htype text Hkind Htext.
    rewrite bool_decide_eq_true_2 by assumption. rewrite Hkind. cbv zeta.
    exists (default 0 (status_total E (err_transaction_outcome_id error) w1)).
    split; [apply transactionGasBurned_value |].
    split; [| apply String_replace_prefix].
    destruct text as [| c text]; [congruence | reflexivity].
  - intros Htype.
    rewrite bool_decide_eq_false_2 by (rewrite Htype; discriminate).
    now rewrite bool_decide_eq_true_2 by assumption.
  - intros H1 H2. now rewrite !bool_decide_eq_false_2 by assumption.
Qed.
End GasAccounting.

(** ** [submit] *)

Section Submit.
Context {SubmitResult : Type} (E : Env SubmitResult).
Import Engine.

(** [submit] after a successful [prepareInput], by the outcome of the
    parser. *)
Lemma submit_eq (input : Input) (inputBytes : bytes) (w : World) :
  prepareInput E (Some input) = Return inputBytes ->
  match parseRawTransaction E inputBytes with
  | Throw _ => submit E input w = (Return (Err "ERR_INVALID_TX"), w)
  | Return rawTransaction =>
      if gasLimit rawTransaction <? 21000
      then submit E input w = (Return (Err "ERR_INTRINSIC_GAS"), w)
      else snd (submit E input w)
           = snd (callMutativeFunction E "submit" (Some inputBytes) w)
  end.
Proof.
  intros Hin. unfold submit, try_catch, bind, lift, ret. rewrite Hin.
  destruct (parseRawTransaction E inputBytes) as [rawTransaction | e]; [| reflexivity].
  destruct (gasLimit rawTransaction <? 21000); [reflexivity |].
  destruct (callMutativeFunction E "submit" (Some inputBytes) w) as [[[o | e] | e] w'];
    try reflexivity.
  now destruct (SubmitResult_decode E (TransactionOutcome.output o)).
Qed.

(** C2. For a byte payload: when the parser of raw transactions throws,
    [submit] returns [Err('ERR_INVALID_TX')] and the world is untouched (no
    call to the backend, no key rotation); when the transaction parses with
    a gas limit under 21000, it returns [Err('ERR_INTRINSIC_GAS')] and the
    world is untouched; when it parses with a gas limit of at least 21000,
    the payload goes to the backend as the mutating call [submit]; and the
    backend is reached in that case only. *)
Theorem submit_prechecks (payload : bytes) (w : World) :
  (forall e, parseRawTransaction E payload = Throw e ->
     submit E (InputBytes payload) w = (Return (Err "ERR_INVALID_TX"), w)) /\
  (forall rawTransaction,
     parseRawTransaction E payload = Return rawTransaction ->
     gasLimit rawTransaction < 21000 ->
     submit E (InputBytes payload) w = (Return (Err "ERR_INTRINSIC_GAS"), w)) /\
  (forall rawTransaction,
     parseRawTransaction E payload = Return rawTransaction ->
     21000 <= gasLimit rawTransaction ->
     snd (submit E (InputBytes payload) w)
       = snd (callMutativeFunction E "submit" (Some payload) w) /\
     exists rest,
       trace (snd (submit E (InputBytes payload) w))
         = trace w ++ EvFunctionCall (contractID E) "submit" payload gas :: rest) /\
  (trace (snd (submit E (InputBytes payload) w)) <> trace w ->
   exists rawTransaction,
     parseRawTransaction E payload = Return rawTransaction /\
     21000 <= gasLimit rawTransaction).
Proof.
  pose proof (submit_eq (InputBytes payload) payload w eq_refl) as H.
  split; [| split; [| split]].
  - intros e He. now rewrite He in H.
  - intros rawTransaction Hp Hgas. rewrite Hp in H.
    apply N.ltb_lt in Hgas. now rewrite Hgas in H.
  - intros rawTransaction Hp Hgas. rewrite Hp in H.
    apply N.ltb_ge in Hgas. rewrite Hgas in H. split; [exact H |].
    rewrite H. apply (callMutativeFunction_trace E "submit" (Some payload) w).
  - intros Hchanged.
    destruct (parseRawTransaction E payload) as [rawTransaction | e].
    + exists rawTransaction. split; [reflexivity |].
      destruct (N.ltb_spec (gasLimit rawTransaction) 21000) as [Hlt | Hge]; [| exact Hge].
      rewrite H in Hchanged. now destruct Hchanged.
    + rewrite H in Hchanged. now destruct Hchanged.
Qed.
End Submit.

(** ** The state demultiplexer *)

Section StateDemultiplexer.
Context {SubmitResult : Type} (E : Env SubmitResult).
Import Engine.

Lemma view_new (a : Address) : Demux.view (AddressState.new a) = Demux.fresh.
Proof. reflexivity. Qed.

Lemma entry_view (result : gmap string AddressState.t) (a : string) :
  Demux.entry (Demux.view <$> result) a =
  match result !! a with
  | Some st => Demux.view st
  | None => Demux.fresh
  end.
Proof. unfold Demux.entry. rewrite lookup_fmap. now destruct (result !! a). Qed.

Lemma keyed_by_address_insert (result : gmap string AddressState.t) (a : string)
    (st : AddressState.t) :
  Demux.keyed_by_address E result ->
  Address_parse E a = Ok (AddressState.address st) ->
  Demux.keyed_by_address E (<[a := st]> result).
Proof.
  intros Hres Ha a' st'. rewrite lookup_insert. case_decide as Heq.
  - intros [= <-]. now subst a'.
  - apply Hres.
Qed.

(** One turn of the loop against one step of the spec. *)
Lemma getStorage_record_step (result : gmap string AddressState.t) (r : StateRecord) :
  Demux.well_formed E r ->
  Demux.keyed_by_address E result ->
  exists result',
    getStorage_record E result r = Return result' /\
    Demux.view <$> result' = Demux.step (Demux.view <$> result) r /\
    Demux.keyed_by_address E result'.
Proof.
  intros [Htag Hparse] Hkeyed. destruct r as [k v].
  unfold Demux.tagged, Demux.is_config, Demux.address_of in *. simpl in Htag, Hparse.
  destruct k as [| d rest]; [discriminate |].
  unfold getStorage_record, Demux.step, Demux.address_of, is_prefix,
    EngineStorageKeyPrefix.Config, EngineStorageKeyPrefix.Nonce,
    EngineStorageKeyPrefix.Balance, EngineStorageKeyPrefix.Code,
    EngineStorageKeyPrefix.Storage.
  cbn [key value head].
  remember (Byte.to_N d) as n eqn:Hn. clear Hn.
  apply N.leb_le in Htag.
  assert (n = 0 \/ n = 1 \/ n = 2 \/ n = 3 \/ n = 4) as Hcases by lia.
  destruct Hcases as [-> | Hcases].
  { exists result. cbn. auto. }
  assert (((n =? 0) = false)) as Hn0 by (apply N.eqb_neq; lia).
  rewrite Hn0 in *. specialize (Hparse eq_refl) as [addr Haddr].
  rewrite entry_view.
  destruct Hcases as [-> | [-> | [-> | ->]]]; cbn [N.eqb Pos.eqb drop take] in *;
    rewrite ?drop_0 in *;
    match type of Haddr with
    | Address_parse E ?a = _ => set (address := a) in *
    end;
    unfold unwrap; rewrite ?Haddr;
    destruct (result !! address) as [st |] eqn:Hst;
    rewrite ?lookup_insert_eq, ?Hst;
    eexists; (split; [reflexivity |]);
    rewrite ?insert_insert_eq, fmap_insert;
    (split; [reflexivity |]);
    apply keyed_by_address_insert; try assumption; cbn;
    try (apply (Hkeyed _ _ Hst)); try exact Haddr.
Qed.

Lemma getStorage_loop_fold (records : list StateRecord)
    (result : gmap string AddressState.t) :
  Forall (Demux.well_formed E) records ->
  Demux.keyed_by_address E result ->
  exists result',
    getStorage_loop E result records = Return result' /\
    Demux.view <$> result' = List.fold_left Demux.step records (Demux.view <$> result) /\
    Demux.keyed_by_address E result'.
Proof.
  intros Hwf. revert result.
  induction Hwf as [| r records Hr _ IH]; intros result Hkeyed.
  - exists result. auto.
  - destruct (getStorage_record_step result r Hr Hkeyed) as (result1 & Hstep & Hview & Hkeyed1).
    destruct (IH result1 Hkeyed1) as (result' & Hloop & Hview' & Hkeyed').
    exists result'. cbn [getStorage_loop List.fold_left].
    rewrite Hstep, <- Hview. auto.
Qed.

(** C3. On a scan whose records are well formed (a discriminator from 0x0
    to 0x4, and an address that [Address.parse] accepts), the loop of
    [getStorage] ends with a map whose Address States are those that the
    rules of the spec build record by record: Config records skipped;
    nonce, balance and code set from the value under the address after the
    discriminator; a storage slot inserted under the address in key bytes
    1..20 and the slot key in bytes 21 onward; an address entered, with
    zero nonce, zero balance, no code and empty storage, when its first
    record is seen, under its lowercase hex encoding, and updated in place
    afterwards.  Each entry carries the parsed address of its key, and
    [getStorage] returns that map in [Ok] once the account and the scan are
    there. *)
Theorem getStorage_demux (records : list StateRecord) :
  Forall (Demux.well_formed E) records ->
  exists result,
    getStorage_loop E ∅ records = Return result /\
    Demux.view <$> result = Demux.demux records /\
    Demux.keyed_by_address E result /\
    forall w,
      near_account E w (contractID E) = Return tt ->
      account_viewState E (recorded (EvAccount (contractID E)) w) EmptyString "final"
        = Return records ->
      fst (getStorage E w) = Return (Ok result).
Proof.
  intros Hwf.
  destruct (getStorage_loop_fold records ∅ Hwf) as (result & Hloop & Hview & Hkeyed).
  { intros a st. now rewrite lookup_empty. }
  exists result. split; [exact Hloop |]. split; [| split; [exact Hkeyed |]].
  - rewrite Hview, fmap_empty. reflexivity.
  - intros w Hacc Hscan.
    unfold getStorage, getAccount, bind, ask, lift, ret.
    now rewrite Hacc, Hscan, Hloop.
Qed.
End StateDemultiplexer.

(** ** The properties at work *)

Section Examples.
Import Engine.

(** Spec 8: receipts that burnt 10 and 20 and a transaction that burnt 5
    make 35; a status query that fails makes 0. *)
Example gas_burned_35 :
  fst (transactionGasBurned demo_env (Some "tx1") demo_world) = Return 35 /\
  fst (transactionGasBurned demo_env None demo_world) = Return 0 /\
  fst (transactionGasBurned demo_env (Some EmptyString) demo_world) = Return 0.
Proof. repeat split. Qed.

(** Spec 8: a nonce, a balance and a storage slot for one address make one
    Address State. *)
Example demux_one_address :
  Demux.demux demo_records =
  {[ toString_hex addrA :=
       Demux.mkState 5 100 None {[ toBigIntBE slot1 := 7 ]} ]}.
Proof. vm_compute. reflexivity. Qed.

Example getAccounts_demo :
  KeyStore.getAccounts demo_keyStore = ["alice.testnet"; "bob.testnet"; "carol.testnet"].
Proof. vm_compute. reflexivity. Qed.

(** An empty execution error text is falsy: the message of the error is
    surfaced in its place. *)
Example empty_execution_error :
  fst (callMutativeFunction demo_env "abort" None demo_world)
  = Return (Err ("execution aborted|" +:+ TransactionErrorDetails.stringify demo_details)).
Proof. vm_compute. reflexivity. Qed.

Lemma getKey_round_robin_witness :
  InMemoryMultiKeyStore.rounds 2 "alice.testnet" two_key_store
    ≡ₚ [Some 7%nat; Some 8%nat] /\
  InMemoryMultiKeyStore.getKey "mainnet" "alice.testnet" two_key_store = None /\
  InMemoryMultiKeyStore.getKey "testnet" "carol.testnet" two_key_store = None.
Proof.
  destruct (getKey_round_robin two_key_store "alice.testnet") as (Hnet & _ & _ & Hcycle).
  destruct (getKey_round_robin two_key_store "carol.testnet") as (_ & Habsent & _).
  destruct Hcycle as (_ & _ & _ & Hperm & _); [vm_compute; lia |].
  split; [exact Hperm |]. split.
  - apply Hnet. vm_compute. discriminate.
  - apply Habsent. reflexivity.
Defined.

Lemma submit_prechecks_witness :
  submit demo_env (InputBytes [x4e; x20; x00]) demo_world
    = (Return (Err "ERR_INTRINSIC_GAS"), demo_world) /\
  submit demo_env (InputBytes [x4e]) demo_world
    = (Return (Err "ERR_INVALID_TX"), demo_world).
Proof.
  split.
  - destruct (submit_prechecks demo_env [x4e; x20; x00] demo_world) as (_ & Hgas & _).
    apply (Hgas (mkRawTransaction 20000)); reflexivity.
  - destruct (submit_prechecks demo_env [x4e] demo_world) as (Hinvalid & _).
    apply (Hinvalid (TypeError "invalid raw transaction")). reflexivity.
Defined.

Lemma getStorage_demux_witness :
  exists result,
    Demux.view <$> result = Demux.demux demo_records /\
    fst (getStorage demo_env demo_world) = Return (Ok result).
Proof.
  destruct (getStorage_demux demo_env demo_records) as (result & _ & Hview & _ & Hget).
  - repeat constructor; intros _; eexists; vm_compute; reflexivity.
  - exists result. split; [exact Hview |]. apply Hget; reflexivity.
Defined.

Lemma gas_burned_total_witness :
  fst (transactionGasBurned demo_env (Some "tx1") demo_world) = Return 35.
Proof.
  destruct (gas_burned_total demo_env (Some "tx1") demo_world) as (Hsum & _).
  apply (Hsum (list_byte_of_string "tx1") (demo_outcome (StatusObject (Some "AA==")))
           (mkExecutionOutcomeWithId "tx1" (mkExecutionOutcome 5))); reflexivity.
Defined.

Lemma callFunction_request_witness :
  exists request rest,
    trace (snd (callFunction demo_env "get_version" None None demo_world))
      = EvQuery request :: rest /\
    finality request = Some "final" /\
    block_id request = None /\
    args_base64 request = EmptyString.
Proof.
  destruct (callFunction_request demo_env "get_version" None None demo_world)
    as (request & rest & Htrace & _ & _ & _ & [Hfin Hblock] & _ & _ & Hargs).
  exists request, rest. split; [exact Htrace |].
  split; [exact Hfin |]. split; [exact Hblock |]. apply Hargs. reflexivity.
Defined.

(** C7, as stated, fails when the marker is inside the text: the text does
    not start with ['Smart contract panicked: '], so stripping that prefix
    leaves it whole, but the call returns it without the marker. *)
Lemma panic_marker_inside_text :
  signer_functionCall demo_env (at_call demo_world) "aurora" "call" [] gas
    = Throw demo_panic /\
  err_type demo_panic = Some "FunctionCallError" /\
  err_kind_ExecutionError demo_panic = Some "wasm trap: Smart contract panicked: boom" /\
  fst (callMutativeFunction demo_env "call" None demo_world)
    = Return (Err ("wasm trap: boom|" +:+ TransactionErrorDetails.stringify demo_details)) /\
  fst (callMutativeFunction demo_env "call" None demo_world)
    <> Return (Err (strip_prefix panic_marker "wasm trap: Smart contract panicked: boom"
                      +:+ "|" +:+ TransactionErrorDetails.stringify demo_details)).
Proof.
  repeat split; try (vm_compute; reflexivity).
  vm_compute. intros H. discriminate H.
Qed.

Lemma backend_error_classification_witness :
  fst (callMutativeFunction demo_env "call" None demo_world)
    = Return (Err ("wasm trap: boom|" +:+ TransactionErrorDetails.stringify demo_details)) /\
  fst (callMutativeFunction demo_env "missing" None demo_world)
    = Return (Err "no such method").
Proof.
  split.
  - destruct (backend_error_classification demo_env "call" None demo_world demo_panic eq_refl)
      as (Hexec & _).
    destruct (Hexec eq_refl "wasm trap: Smart contract panicked: boom" eq_refl)
      as (gasBurned & Hgas & Hmsg & _); [discriminate |].
    rewrite Hmsg. injection Hgas as <-. reflexivity.
  - destruct (backend_error_classification demo_env "missing" None demo_world
                (thrown "MethodNotFound" "no such method" None None) eq_refl)
      as (_ & Hmissing & _).
    rewrite Hmissing; reflexivity.
Defined.

Lemma missing_success_value_witness :
  fst (callMutativeFunction demo_env "stall" None demo_world)
    = Return (Err "[object Object]").
Proof.
  rewrite (missing_success_value demo_env "stall" None demo_world
             (demo_outcome (StatusBasic Started))); [reflexivity | reflexivity |].
  intros SuccessValue. discriminate.
Defined.
End Examples.

(** * Further properties *)

(** ** [Map] operations *)

Section JsMapFacts.
Context {V : Type}.
Implicit Types (m : JsMap.t V) (k : string) (v : V).

Lemma JsMap_get_set_eq m k v : JsMap.get k (JsMap.set k v m) = Some v.
Proof.
  induction m as [| [k' v'] m IH]; simpl.
  - now rewrite String.eqb_refl.
  - destruct (String.eqb k k') eqn:E; simpl; rewrite E; [reflexivity | exact IH].
Qed.

Lemma JsMap_get_set_ne m k k' v : k <> k' -> JsMap.get k' (JsMap.set k v m) = JsMap.get k' m.
Proof.
  intros Hne. induction m as [| [k0 v0] m IH]; simpl.
  - apply not_eq_sym, String.eqb_neq in Hne. now rewrite Hne.
  - destruct (String.eqb k k0) eqn:E; simpl.
    + apply String.eqb_eq in E. subst k0.
      apply not_eq_sym, String.eqb_neq in Hne. now rewrite Hne.
    + now rewrite IH.
Qed.

Lemma JsMap_get_None m k : JsMap.get k m = None <-> k ∉ JsMap.keys m.
Proof.
  induction m as [| [k' v'] m IH]; simpl.
  - split; [intros _; apply not_elem_of_nil | reflexivity].
  - rewrite not_elem_of_cons. destruct (String.eqb_spec k k') as [-> | Hne].
    + split; [discriminate | intros [[] _]; reflexivity].
    + rewrite IH. tauto.
Qed.

Lemma JsMap_get_Some m k v : JsMap.get k m = Some v -> (k, v) ∈ m.
Proof.
  induction m as [| [k' v'] m IH]; simpl; [discriminate |].
  destruct (String.eqb_spec k k') as [-> | Hne].
  - intros [= ->]. apply list_elem_of_here.
  - intros H. apply list_elem_of_further, IH, H.
Qed.

(** [set] keeps the order of the keys; a new key goes to the end. *)
Lemma JsMap_keys_set m k v :
  JsMap.keys (JsMap.set k v m) =
  if JsMap.has k m then JsMap.keys m else JsMap.keys m ++ [k].
Proof.
  unfold JsMap.has. induction m as [| [k' v'] m IH]; simpl; [reflexivity |].
  destruct (String.eqb_spec k k') as [-> | Hne]; simpl; [reflexivity |].
  rewrite IH. now destruct (JsMap.get k m).
Qed.

Lemma JsMap_set_elem_of m k v (e : string * V) :
  e ∈ JsMap.set k v m -> e = (k, v) \/ e ∈ m.
Proof.
  induction m as [| [k' v'] m IH]; simpl.
  - intros ->%list_elem_of_singleton. now left.
  - destruct (String.eqb_spec k k') as [-> | Hne]; rewrite !elem_of_cons; intuition.
Qed.

Lemma JsMap_set_set m k v v' : JsMap.set k v (JsMap.set k v' m) = JsMap.set k v m.
Proof.
  induction m as [| [k' v0] m IH]; simpl.
  - now rewrite String.eqb_refl.
  - destruct (String.eqb k k') eqn:E; simpl; rewrite E; [reflexivity | now rewrite IH].
Qed.

Lemma JsMap_delete_elem_of m k (e : string * V) : e ∈ JsMap.delete k m -> e ∈ m.
Proof.
  induction m as [| [k' v'] m IH]; simpl; [tauto |].
  destruct (String.eqb k k'); rewrite !elem_of_cons; intuition.
Qed.

Lemma JsMap_keys_delete m k k' :
  NoDup (JsMap.keys m) ->
  k' ∈ JsMap.keys (JsMap.delete k m) <-> k' ∈ JsMap.keys m /\ k' <> k.
Proof.
  induction m as [| [k0 v0] m IH]; simpl.
  - intros _. rewrite elem_of_nil. tauto.
  - intros [Hnotin Hnd]%NoDup_cons.
    destruct (String.eqb_spec k k0) as [-> | Hne]; simpl; rewrite !elem_of_cons.
    + split; [| intros [[-> | H] Hne']; [congruence | exact H]].
      intros H. split; [now right | intros ->; contradiction].
    + rewrite (IH Hnd). split; [intros [-> | [H Hne']]; auto | tauto].
Qed.

Lemma JsMap_delete_NoDup m k : NoDup (JsMap.keys m) -> NoDup (JsMap.keys (JsMap.delete k m)).
Proof.
  induction m as [| [k0 v0] m IH]; simpl; [auto |].
  intros [Hnotin Hnd]%NoDup_cons.
  destruct (String.eqb k k0); simpl; [exact Hnd |].
  apply NoDup_cons. split; [| auto].
  intros H. apply Hnotin. unfold JsMap.keys in *.
  apply list_elem_of_fmap in H as ([k1 v1] & -> & H).
  apply JsMap_delete_elem_of in H. apply list_elem_of_fmap. now exists (k1, v1).
Qed.

Lemma JsMap_get_delete_ne m k k' : k <> k' -> JsMap.get k' (JsMap.delete k m) = JsMap.get k' m.
Proof.
  intros Hne. induction m as [| [k0 v0] m IH]; simpl; [reflexivity |].
  destruct (String.eqb_spec k k0) as [-> | Hne0]; simpl.
  - apply not_eq_sym, String.eqb_neq in Hne. now rewrite Hne.
  - now rewrite IH.
Qed.
End JsMapFacts.

(** ** The in-memory multi-key store, operation by operation *)

Section MultiKeyStoreOperations.
Import InMemoryMultiKeyStore.

Lemma Nat_eqb_eq (x y : nat) : Nat.eqb x y = true <-> x = y.
Proof. apply Nat.eqb_eq. Qed.

Lemma pool_setKey_eq (s : t) (accountID : string) (keyPair : KeyPair) :
  pool (setKey (networkID s) accountID keyPair s) accountID
  = JsSet.add Nat.eqb keyPair (pool s accountID).
Proof.
  unfold setKey. rewrite network_match. unfold pool at 1. simpl.
  now rewrite JsMap_get_set_eq.
Qed.

Lemma pool_entry (s : t) (accountID : string) :
  well_kept s -> accountID ∈ JsMap.keys (store s) ->
  pool s accountID <> [] /\ NoDup (pool s accountID).
Proof.
  intros [_ Hpools] Hin. unfold pool.
  destruct (JsMap.get accountID (store s)) as [keyPairs |] eqn:E.
  - apply JsMap_get_Some in E. rewrite Forall_forall in Hpools. apply (Hpools _ E).
  - apply JsMap_get_None in E. contradiction.
Qed.

Lemma setKey_listed (s : t) (accountID : string) (keyPair : KeyPair) :
  accountID ∈ getAccounts (networkID s) (setKey (networkID s) accountID keyPair s).
Proof.
  unfold getAccounts, setKey. rewrite network_match. simpl. rewrite network_match.
  rewrite JsMap_keys_set. unfold JsMap.has.
  destruct (JsMap.get accountID (store s)) eqn:E.
  - destruct (decide (accountID ∈ JsMap.keys (store s))) as [H | H]; [exact H |].
    apply JsMap_get_None in H. congruence.
  - apply elem_of_app. right. now apply list_elem_of_singleton.
Qed.

Lemma setKey_keeps_listed (s : t) (N M a b : string) (keyPair : KeyPair) :
  b ∈ getAccounts M s -> b ∈ getAccounts M (setKey N a keyPair s).
Proof.
  unfold getAccounts, setKey.
  destruct (negb (String.eqb N (networkID s))); [tauto |]. simpl.
  destruct (negb (String.eqb M (networkID s))); [tauto |].
  rewrite JsMap_keys_set. destruct (JsMap.has a (store s)); [tauto |].
  intros H. apply elem_of_app. now left.
Qed.

(** X1. The stores that the program can build are well kept: a new store
    is, and [setKey], [removeKey], [clear] and [reKey] keep a store so,
    whatever their arguments.  So no account is on file twice, no pool is
    empty and no pool holds a key twice. *)
Theorem well_kept_preserved (s : t) (N accountID : string) (keyPair : KeyPair) :
  well_kept (new N) /\
  (well_kept s ->
   well_kept (setKey N accountID keyPair s) /\
   well_kept (removeKey N accountID s) /\
   well_kept (clear s) /\
   well_kept (reKey s)).
Proof.
  split.
  { split; [apply NoDup_nil_2 | apply Forall_nil_2]. }
  intros [Hkeys Hpools]. split; [| split; [| split]].
  - unfold setKey. destruct (negb (String.eqb N (networkID s))); [now split |].
    split; simpl.
    + rewrite JsMap_keys_set. unfold JsMap.has.
      destruct (JsMap.get accountID (store s)) eqn:E; [exact Hkeys |].
      apply JsMap_get_None in E. apply NoDup_app. split; [exact Hkeys |].
      split; [| apply NoDup_singleton].
      intros a Ha ->%list_elem_of_singleton. contradiction.
    + apply Forall_forall. intros e He.
      apply JsMap_set_elem_of in He as [-> | He]; simpl.
      * split.
        -- unfold JsSet.add. destruct (List.existsb _ _) eqn:Ex.
           ++ apply List.existsb_exists in Ex as (x & Hx & _).
              intros E. rewrite E in Hx. destruct Hx.
           ++ now destruct (pool s accountID).
        -- apply (JsSet_add_NoDup Nat.eqb Nat_eqb_eq).
           unfold pool. destruct (JsMap.get accountID (store s)) eqn:E; [| apply NoDup_nil_2].
           apply JsMap_get_Some in E. rewrite Forall_forall in Hpools.
           apply (Hpools _ E).
      * rewrite Forall_forall in Hpools. apply (Hpools _ He).
  - unfold removeKey. destruct (negb (String.eqb N (networkID s))); [now split |].
    split; simpl.
    + now apply JsMap_delete_NoDup.
    + apply Forall_forall. intros e He%JsMap_delete_elem_of.
      rewrite Forall_forall in Hpools. apply (Hpools _ He).
  - split; [apply NoDup_nil_2 | apply Forall_nil_2].
  - now split.
Qed.

(** X2. After [setKey] on the bound network the key is in the account's
    pool, the account is listed, and [getKey] answers a key of that pool,
    whatever the rotation counter; it is the new key itself when the account
    had no key before. *)
Theorem setKey_then_getKey (s : t) (accountID : string) (keyPair : KeyPair) :
  let s' := setKey (networkID s) accountID keyPair s in
  keyPair ∈ pool s' accountID /\
  accountID ∈ getAccounts (networkID s) s' /\
  (exists k, getKey (networkID s) accountID s' = Some k /\ k ∈ pool s' accountID) /\
  (pool s accountID = [] -> getKey (networkID s) accountID s' = Some keyPair).
Proof.
  intros s'.
  assert (pool s' accountID = JsSet.add Nat.eqb keyPair (pool s accountID)) as Hpool
    by apply pool_setKey_eq.
  assert (networkID s' = networkID s) as Hnet.
  { unfold s', setKey. now rewrite network_match. }
  assert (keyPair ∈ pool s' accountID) as Hin.
  { rewrite Hpool. apply (JsSet_add_elem_of Nat.eqb Nat_eqb_eq). now left. }
  assert (pool s' accountID <> []) as Hne.
  { intros E. rewrite E in Hin. now apply elem_of_nil in Hin. }
  split; [exact Hin |]. split; [| split].
  - apply setKey_listed.
  - rewrite <- Hnet, getKey_bound by exact Hne.
    destruct (selected_is_Some (pool s' accountID) (reKeyCounter s')) as [k Hk].
    { destruct (pool s' accountID); [congruence | simpl; lia]. }
    exists k. split; [exact Hk |]. eapply list_elem_of_lookup_2, Hk.
  - intros Hempty. rewrite <- Hnet, getKey_bound by exact Hne.
    rewrite Hpool, Hempty. unfold JsSet.add, selected. simpl.
    now rewrite N.mod_1_r.
Qed.

(** X3. [setKey] with a key that the pool already holds changes nothing
    more: the second of two equal calls is without effect. *)
Theorem setKey_idempotent (s : t) (N accountID : string) (keyPair : KeyPair) :
  setKey N accountID keyPair (setKey N accountID keyPair s) = setKey N accountID keyPair s.
Proof.
  destruct (String.eqb_spec N (networkID s)) as [-> | Hmis].
  - pose proof (network_match s) as E.
    remember (setKey (networkID s) accountID keyPair s) as s' eqn:Hs'.
    assert (networkID s' = networkID s) as Hnet.
    { subst s'. unfold setKey. now rewrite network_match. }
    assert (pool s' accountID = JsSet.add Nat.eqb keyPair (pool s accountID)) as Hpool
      by (subst s'; apply pool_setKey_eq).
    rewrite <- Hnet at 1. unfold setKey at 1. rewrite network_match, Hpool.
    assert (JsSet.add Nat.eqb keyPair (JsSet.add Nat.eqb keyPair (pool s accountID))
            = JsSet.add Nat.eqb keyPair (pool s accountID)) as ->.
    { unfold JsSet.add at 1.
      assert (List.existsb (Nat.eqb keyPair) (JsSet.add Nat.eqb keyPair (pool s accountID)) = true)
        as ->; [| reflexivity].
      apply (existsb_eqb_elem_of Nat.eqb Nat_eqb_eq).
      apply (JsSet_add_elem_of Nat.eqb Nat_eqb_eq). now left. }
    subst s'. unfold setKey. rewrite network_match. simpl.
    now rewrite JsMap_set_set.
  - assert (setKey N accountID keyPair s = s) as Hid.
    { unfold setKey. now rewrite network_mismatch. }
    now rewrite !Hid.
Qed.

(** X4. [setKey] and [removeKey] for one account leave every other account
    as it was: its pool, and what [getKey] answers for it. *)
Theorem other_accounts_untouched (s : t) (N a b : string) (keyPair : KeyPair) :
  a <> b ->
  pool (setKey N a keyPair s) b = pool s b /\
  pool (removeKey N a s) b = pool s b /\
  (forall M, getKey M b (setKey N a keyPair s) = getKey M b s) /\
  (forall M, getKey M b (removeKey N a s) = getKey M b s).
Proof.
  intros Hne.
  assert (pool (setKey N a keyPair s) b = pool s b) as H1.
  { unfold setKey. destruct (negb (String.eqb N (networkID s))); [reflexivity |].
    unfold pool; simpl. now rewrite JsMap_get_set_ne. }
  assert (pool (removeKey N a s) b = pool s b) as H2.
  { unfold removeKey. destruct (negb (String.eqb N (networkID s))); [reflexivity |].
    unfold pool; simpl. now rewrite JsMap_get_delete_ne. }
  split; [exact H1 |]. split; [exact H2 |]. split; intros M; unfold getKey.
  - rewrite H1. unfold setKey. now destruct (negb (String.eqb N (networkID s))).
  - rewrite H2. unfold removeKey. now destruct (negb (String.eqb N (networkID s))).
Qed.

(** X5. In a well-kept store, [removeKey] on the bound network forgets the
    account: [getKey] answers [undefined] for it, it is no longer listed, and
    the other accounts are listed as before. *)
Theorem removeKey_forgets (s : t) (accountID : string) :
  well_kept s ->
  let s' := removeKey (networkID s) accountID s in
  getKey (networkID s) accountID s' = None /\
  (accountID ∉ getAccounts (networkID s) s') /\
  (forall b, b <> accountID ->
     b ∈ getAccounts (networkID s) s' <-> b ∈ getAccounts (networkID s) s).
Proof.
  intros [Hkeys Hpools] s'.
  assert (store s' = JsMap.delete accountID (store s)) as Hstore.
  { unfold s', removeKey. now rewrite network_match. }
  assert (networkID s' = networkID s) as Hnet.
  { unfold s', removeKey. now rewrite network_match. }
  assert (accountID ∉ JsMap.keys (store s')) as Hgone.
  { rewrite Hstore, JsMap_keys_delete by exact Hkeys. tauto. }
  split; [| split].
  - unfold getKey, pool. rewrite Hnet, network_match.
    apply JsMap_get_None in Hgone. now rewrite Hgone.
  - unfold getAccounts. now rewrite Hnet, network_match.
  - intros b Hb. unfold getAccounts. rewrite Hnet, network_match.
    rewrite Hstore, JsMap_keys_delete by exact Hkeys. tauto.
Qed.

(** X6. In a well-kept store the accounts that [getAccounts] lists for the
    bound network are exactly those for which [getKey] answers a key. *)
Theorem listed_iff_has_key (s : t) (accountID : string) :
  well_kept s ->
  accountID ∈ getAccounts (networkID s) s <->
  is_Some (getKey (networkID s) accountID s).
Proof.
  intros Hwf. unfold getAccounts. rewrite network_match. split.
  - intros Hin. destruct (pool_entry s accountID Hwf Hin) as [Hne _].
    rewrite getKey_bound by exact Hne. apply selected_is_Some.
    destruct (pool s accountID); [congruence | simpl; lia].
  - intros [k Hk].
    destruct (decide (accountID ∈ JsMap.keys (store s))) as [H | H]; [exact H |].
    apply JsMap_get_None in H. unfold getKey, pool in Hk.
    rewrite network_match, H in Hk. discriminate.
Qed.

Lemma reKeys_fields (n : nat) (s : t) :
  networkID (reKeys n s) = networkID s /\
  store (reKeys n s) = store s /\
  reKeyCounter (reKeys n s) = reKeyCounter s + N.of_nat n.
Proof.
  revert s. induction n as [| n IH]; intros s; simpl.
  - repeat split. lia.
  - destruct (IH (reKey s)) as (-> & -> & ->). simpl. repeat split. lia.
Qed.

(** X7. With a single key on file for an account, rotation has no effect on
    it: after any number of [reKey()] calls [getKey] answers that key.  In
    general rotation changes neither the accounts nor the pools, only the
    counter, by one per call. *)
Theorem single_key_rotation (s : t) (accountID : string) (keyPair : KeyPair) (n : nat) :
  pool s accountID = [keyPair] ->
  getKey (networkID s) accountID (reKeys n s) = Some keyPair /\
  store (reKeys n s) = store s /\
  reKeyCounter (reKeys n s) = reKeyCounter s + N.of_nat n.
Proof.
  intros Hpool. destruct (reKeys_fields n s) as (Hnet & Hstore & Hcount).
  split; [| now split].
  assert (pool (reKeys n s) accountID = [keyPair]) as Hpool'.
  { unfold pool. rewrite Hstore. exact Hpool. }
  rewrite <- Hnet, getKey_bound by (rewrite Hpool'; discriminate).
  rewrite Hpool'. unfold selected. simpl. now rewrite N.mod_1_r.
Qed.
End MultiKeyStoreOperations.

(** ** The merged store: listing and loading *)

Section MergedStore.
Import KeyStore.

Lemma getAccounts_elem_of (ks : KeyStore.t) (a : string) :
  a ∈ getAccounts ks <->
  exists src, src ∈ keyStores ks /\ a ∈ source_getAccounts (networkID ks) src.
Proof.
  unfold getAccounts.
  rewrite Array_sort_elem_of, (JsSet_of_list_elem_of String.eqb String.eqb_eq).
  apply MergeKeyStore_getAccounts_elem_of.
Qed.

Lemma getAccounts_canonical (ks : KeyStore.t) :
  NoDup (getAccounts ks) /\ StronglySorted String.le (getAccounts ks).
Proof.
  unfold getAccounts, Array_sort. split.
  - rewrite merge_sort_Permutation. apply (JsSet_of_list_NoDup String.eqb String.eqb_eq).
  - apply StronglySorted_merge_sort; apply _.
Qed.

(** X8. [getAccounts()] of the merged store does not depend on the order of
    its sources, nor on how often an account is reported: two merged stores
    for the same network whose sources are the same up to order list the same
    accounts in the same order.  Rotation does not change the listing
    either. *)
Theorem getAccounts_order_independent (ks1 ks2 : KeyStore.t) :
  networkID ks1 = networkID ks2 ->
  keyStores ks1 ≡ₚ keyStores ks2 ->
  getAccounts ks1 = getAccounts ks2 /\
  getAccounts (reKey ks1) = getAccounts ks1.
Proof.
  intros Hnet Hperm. split; [| reflexivity].
  destruct (getAccounts_canonical ks1) as [Hnd1 Hs1].
  destruct (getAccounts_canonical ks2) as [Hnd2 Hs2].
  apply (StronglySorted_unique_strong String.le); try assumption.
  - intros x1 x2 _ _. apply (anti_symm String.le).
  - apply NoDup_Permutation; try assumption.
    intros a. rewrite !getAccounts_elem_of, Hnet.
    split; intros (src & Hsrc & Ha); exists src; split; try assumption.
    + now rewrite <- Hperm.
    + now rewrite Hperm.
Qed.

Lemma getAccounts_order_independent_witness :
  getAccounts demo_keyStore
  = getAccounts {| networkID := "testnet";
                   keyStore := two_key_store;
                   others := List.rev (others demo_keyStore) |}.
Proof.
  apply getAccounts_order_independent; [reflexivity |].
  unfold keyStores. simpl. apply Permutation_skip, Permutation_swap.
Defined.

Import KeyFiles.

Lemma store_key_listed (ks : KeyStore.t) (accountID : string) (keyPair : KeyPair) :
  InMemoryMultiKeyStore.networkID (keyStore ks) = networkID ks ->
  accountID ∈ getAccounts (store_key accountID keyPair ks).
Proof.
  intros Hnet. apply getAccounts_elem_of.
  eexists. split; [apply list_elem_of_here |].
  unfold source_getAccounts; simpl. rewrite <- Hnet.
  apply (setKey_listed (keyStore ks) accountID keyPair).
Qed.

Lemma store_key_keeps_listed (ks : KeyStore.t) (a b : string) (keyPair : KeyPair) :
  b ∈ getAccounts ks -> b ∈ getAccounts (store_key a keyPair ks).
Proof.
  rewrite !getAccounts_elem_of. unfold keyStores; simpl.
  intros (src & Hsrc & Hb). apply elem_of_cons in Hsrc as [-> | Hsrc].
  - eexists. split; [apply list_elem_of_here |].
    unfold source_getAccounts in *; simpl in *.
    now apply setKey_keeps_listed.
  - exists src. split; [now apply list_elem_of_further | exact Hb].
Qed.

Section Loading.
Variable files : string -> Res (string * KeyPair).

Lemma loadKeyFiles_fields (keyFilePaths : list string) (ks : KeyStore.t) :
  networkID (snd (loadKeyFiles files keyFilePaths ks)) = networkID ks /\
  InMemoryMultiKeyStore.networkID (keyStore (snd (loadKeyFiles files keyFilePaths ks)))
    = InMemoryMultiKeyStore.networkID (keyStore ks) /\
  forall b, b ∈ getAccounts ks -> b ∈ getAccounts (snd (loadKeyFiles files keyFilePaths ks)).
Proof.
  revert ks. induction keyFilePaths as [| p ps IH]; intros ks; simpl; [auto |].
  destruct (files p) as [[a kp] | e]; simpl; [| auto].
  destruct (IH (store_key a kp ks)) as (-> & -> & Hkeep).
  split; [reflexivity |]. split.
  - simpl. unfold InMemoryMultiKeyStore.setKey.
    now destruct (negb (String.eqb (networkID ks) (InMemoryMultiKeyStore.networkID (keyStore ks)))).
  - intros b Hb. apply Hkeep, store_key_keeps_listed, Hb.
Qed.

Lemma loadKeyFiles_listed (keyFilePaths : list string) (ks : KeyStore.t) :
  InMemoryMultiKeyStore.networkID (keyStore ks) = networkID ks ->
  Forall (fun p => exists entry, files p = Return entry) keyFilePaths ->
  let ks' := snd (loadKeyFiles files keyFilePaths ks) in
  fst (loadKeyFiles files keyFilePaths ks) = Return tt /\
  (forall p a keyPair, p ∈ keyFilePaths -> files p = Return (a, keyPair) -> a ∈ getAccounts ks') /\
  (forall b, b ∈ getAccounts ks -> b ∈ getAccounts ks').
Proof.
  intros Hnet Hall. revert ks Hnet.
  induction Hall as [| p ps [[a kp] Hp] _ IH]; intros ks Hnet; simpl.
  - split; [reflexivity |]. split; [| auto]. intros p a kp Hin. now apply elem_of_nil in Hin.
  - rewrite Hp.
    assert (InMemoryMultiKeyStore.networkID (keyStore (store_key a kp ks))
            = networkID (store_key a kp ks)) as Hnet'.
    { simpl. unfold InMemoryMultiKeyStore.setKey. rewrite <- Hnet, network_match. reflexivity. }
    destruct (IH (store_key a kp ks) Hnet') as (Hret & Hnew & Hold).
    split; [exact Hret |]. split.
    + intros p' a' kp' Hin Hp'. apply elem_of_cons in Hin as [-> | Hin].
      * rewrite Hp in Hp'. injection Hp' as <- <-.
        apply Hold, store_key_listed, Hnet.
      * apply (Hnew p' a' kp' Hin Hp').
    + intros b Hb. apply Hold, store_key_keeps_listed, Hb.
Qed.

(** X9. When every file loads, [loadKeyFiles] returns normally and, in a
    merged store whose in-memory store is bound to the same network, every
    account named by a file is listed by [getAccounts()] afterwards, beside
    all the accounts listed before.  [loadKeyFile] does what [loadKeyFiles]
    does for one file. *)
Theorem loadKeyFiles_lists_accounts (keyFilePaths : list string) (ks : KeyStore.t) :
  InMemoryMultiKeyStore.networkID (keyStore ks) = networkID ks ->
  Forall (fun p => exists entry, files p = Return entry) keyFilePaths ->
  let ks' := snd (loadKeyFiles files keyFilePaths ks) in
  fst (loadKeyFiles files keyFilePaths ks) = Return tt /\
  (forall p a keyPair, p ∈ keyFilePaths -> files p = Return (a, keyPair) -> a ∈ getAccounts ks') /\
  (forall b, b ∈ getAccounts ks -> b ∈ getAccounts ks') /\
  (forall p, loadKeyFile files p ks = loadKeyFiles files [p] ks).
Proof.
  intros Hnet Hall ks'.
  destruct (loadKeyFiles_listed keyFilePaths ks Hnet Hall) as (Hret & Hnew & Hold).
  split; [exact Hret |]. split; [exact Hnew |]. split; [exact Hold |].
  intros p. unfold loadKeyFile. simpl. now destruct (files p) as [[a kp] |].
Qed.

(** X10. [loadKeyFiles] stops at the first file that cannot be loaded: the
    exception of that file propagates, the keys of the files before it stay
    loaded, and the files after it are not looked at. *)
Theorem loadKeyFiles_stops_at_first_failure (before after : list string) (bad : string)
    (e : JsError) (ks : KeyStore.t) :
  Forall (fun p => exists entry, files p = Return entry) before ->
  files bad = Throw e ->
  loadKeyFiles files (before ++ bad :: after) ks
    = (Throw e, snd (loadKeyFiles files before ks)) /\
  loadKeyFiles files (before ++ bad :: after) ks = loadKeyFiles files (before ++ [bad]) ks.
Proof.
  intros Hall Hbad. revert ks.
  induction Hall as [| p ps [[a kp] Hp] _ IH]; intros ks; simpl.
  - now rewrite Hbad.
  - rewrite Hp. apply IH.
Qed.
End Loading.

Lemma loadKeyFiles_lists_accounts_witness :
  getAccounts (snd (loadKeyFiles demo_files ["erin.json"; "dave.json"] demo_keyStore))
  = ["alice.testnet"; "bob.testnet"; "carol.testnet"; "dave.testnet"; "erin.testnet"] /\
  "dave.testnet" ∈ getAccounts (snd (loadKeyFiles demo_files ["erin.json"; "dave.json"] demo_keyStore)).
Proof.
  split; [vm_compute; reflexivity |].
  destruct (loadKeyFiles_lists_accounts demo_files ["erin.json"; "dave.json"] demo_keyStore)
    as (_ & Hnew & _).
  - reflexivity.
  - repeat constructor; eexists; reflexivity.
  - apply (Hnew "dave.json" "dave.testnet" 21%nat); [| reflexivity].
    apply list_elem_of_further, list_elem_of_here.
Defined.

Lemma loadKeyFiles_stops_at_first_failure_witness :
  fst (loadKeyFiles demo_files ["dave.json"; "broken.json"; "erin.json"] demo_keyStore)
    = Throw (TypeError "Unexpected end of JSON input") /\
  getAccounts (snd (loadKeyFiles demo_files ["dave.json"; "broken.json"; "erin.json"] demo_keyStore))
    = ["alice.testnet"; "bob.testnet"; "carol.testnet"; "dave.testnet"].
Proof.
  destruct (loadKeyFiles_stops_at_first_failure demo_files ["dave.json"] ["erin.json"]
              "broken.json" (TypeError "Unexpected end of JSON input") demo_keyStore)
    as [H _].
  - repeat constructor; eexists; reflexivity.
  - reflexivity.
  - simpl app in H. rewrite H. split; [reflexivity | vm_compute; reflexivity].
Defined.
End MergedStore.

(** ** The engine: what its calls do and never do *)

Section EngineEffects.
Context {SubmitResult : Type} (E : Env SubmitResult).
Import Engine EngineCalls.

Lemma callFunction_eq (methodName : string) (args : option bytes)
    (options : option ViewOptions) (w : World) :
  let request := view_request E methodName args options in
  callFunction E methodName args options w =
  match provider_query E w request with
  | Return response =>
      (Return (Ok (result response)),
       match logs response with
       | Some (line :: lines) =>
           recorded (EvConsoleDebug (DebugLogs (line :: lines))) (recorded (EvQuery request) w)
       | Some [] | None => recorded (EvQuery request) w
       end)
  | Throw e => (Throw e, recorded (EvQuery request) w)
  end.
Proof.
  unfold callFunction, view_request, bind, lift, ask, emit, ret.
  destruct args as [b |]; simpl;
    match goal with
    | |- context [provider_query E ?w ?r] => destruct (provider_query E w r) as [resp | e]
    end; simpl; try reflexivity.
  all: destruct (logs resp) as [[| line lines] |]; reflexivity.
Qed.

(** X11. A view call never answers [Err]: what the backend returns comes
    back in [Ok], and what the backend throws is thrown to the caller.  It
    asks the backend once and leaves the key store alone (no rotation). *)
Theorem callFunction_never_Err (methodName : string) (args : option bytes)
    (options : option ViewOptions) (w : World) :
  let request := view_request E methodName args options in
  (forall response, provider_query E w request = Return response ->
     fst (callFunction E methodName args options w) = Return (Ok (result response))) /\
  (forall e, provider_query E w request = Throw e ->
     callFunction E methodName args options w = (Throw e, recorded (EvQuery request) w)) /\
  (forall message, fst (callFunction E methodName args options w) <> Return (Err message)) /\
  keyStore (snd (callFunction E methodName args options w)) = keyStore w.
Proof.
  intros request. rewrite callFunction_eq. fold request.
  destruct (provider_query E w request) as [response | e].
  - split; [now intros ? [= ->] |]. split; [discriminate |]. split; [discriminate |].
    simpl. now destruct (logs response) as [[| line lines] |].
  - split; [discriminate |]. split; [now intros ? [= ->] |]. split; [discriminate | reflexivity].
Qed.

(** What [transactionGasBurned] does to the world: at most one status
    query. *)
Lemma transactionGasBurned_rest (transactionId : option string) (w : World) :
  exists rest,
    snd (transactionGasBurned E transactionId w)
      = {| keyStore := keyStore w; trace := trace w ++ rest |} /\
    (rest = [] \/ exists txHash, rest = [EvTxStatus txHash (contractID E)]).
Proof.
  rewrite transactionGasBurned_world.
  destruct (base58ToBytes E transactionId) as [txHash | e].
  - eexists. split; [reflexivity |]. right. now exists txHash.
  - exists []. rewrite app_nil_r. destruct w. split; [reflexivity | now left].
Qed.

Lemma callMutativeFunction_catch_effects (error : JsError) (w : World) :
  exists r rest,
    callMutativeFunction_catch E error w
      = (Return r, {| keyStore := keyStore w; trace := trace w ++ rest |}) /\
    (rest = [] \/ (exists txHash, rest = [EvTxStatus txHash (contractID E)]) \/
     rest = [EvConsoleDebug (DebugError error)]).
Proof.
  rewrite callMutativeFunction_catch_eq.
  destruct (bool_decide (err_type error = Some "FunctionCallError")).
  - destruct (transactionGasBurned_rest (err_transaction_outcome_id error) w)
      as (rest & Hsnd & Hrest).
    cbv zeta. rewrite Hsnd.
    eexists; exists rest. split; [reflexivity | tauto].
  - destruct (bool_decide (err_type error = Some "MethodNotFound")).
    + eexists; exists []. rewrite app_nil_r. destruct w. split; [reflexivity | tauto].
    + eexists; eexists. split; [reflexivity | tauto].
Qed.

(** The shape of a mutating call: one rotation, one function call, then at
    most one status query or one line on the console. *)
Lemma callMutativeFunction_shape (methodName : string) (args : option bytes) (w : World) :
  exists r rest,
    callMutativeFunction E methodName args w
      = (Return r,
         {| keyStore := KeyStore.reKey (keyStore w);
            trace := trace w ++
                     EvFunctionCall (contractID E) methodName (default [] args) 300000000000000
                     :: rest |}) /\
    (rest = [] \/ (exists txHash, rest = [EvTxStatus txHash (contractID E)]) \/
     (exists error, rest = [EvConsoleDebug (DebugError error)])).
Proof.
  rewrite callMutativeFunction_eq.
  assert (forall e, exists r rest,
            callMutativeFunction_catch E e (after_call E methodName args w)
              = (Return r,
                 {| keyStore := KeyStore.reKey (keyStore w);
                    trace := trace w ++
                      EvFunctionCall (contractID E) methodName (default [] args) gas :: rest |}) /\
            (rest = [] \/ (exists txHash, rest = [EvTxStatus txHash (contractID E)]) \/
             (exists error, rest = [EvConsoleDebug (DebugError error)]))) as Hcatch.
  { intros e.
    destruct (callMutativeFunction_catch_effects e (after_call E methodName args w))
      as (r & rest & -> & Hrest).
    exists r, rest. split.
    - unfold after_call, recorded, rekeyed; simpl. now rewrite <- app_assoc.
    - destruct Hrest as [H | [H | H]]; eauto. }
  destruct (signer_functionCall E (at_call w) (contractID E) methodName (default [] args) gas)
    as [result | e]; [| apply Hcatch].
  destruct (status result) as [basic | [SuccessValue |]].
  - eexists; exists []. split; [reflexivity | now left].
  - destruct (TransactionID_fromHex E (transaction_hash result)) as [txid | e];
      [| apply Hcatch].
    cbv zeta.
    destruct (transactionGasBurned_rest (id <$> transaction_outcome result)
                (after_call E methodName args w)) as (rest & Hsnd & Hrest).
    rewrite Hsnd.
    eexists; exists rest. split; [| tauto].
    unfold after_call, recorded, rekeyed; simpl. now rewrite <- app_assoc.
  - eexists; exists []. split; [reflexivity | now left].
Qed.

(** X12. Whatever the backend does, a mutating call returns a [Result] (it
    never throws) and rotates the keys exactly once: the rotation counter of
    the in-memory store goes up by one, and the pools and the listed
    accounts stay as they were.  It talks to the backend in this order: one
    function call with the gas budget 300000000000000, then at most one
    status query; the only other thing it may do is write the error to the
    console. *)
Theorem callMutativeFunction_effects (methodName : string) (args : option bytes) (w : World) :
  let w' := snd (callMutativeFunction E methodName args w) in
  (exists r, fst (callMutativeFunction E methodName args w) = Return r) /\
  InMemoryMultiKeyStore.reKeyCounter (KeyStore.keyStore (keyStore w'))
    = InMemoryMultiKeyStore.reKeyCounter (KeyStore.keyStore (keyStore w)) + 1 /\
  InMemoryMultiKeyStore.store (KeyStore.keyStore (keyStore w'))
    = InMemoryMultiKeyStore.store (KeyStore.keyStore (keyStore w)) /\
  KeyStore.getAccounts (keyStore w') = KeyStore.getAccounts (keyStore w) /\
  exists rest,
    trace w' = trace w ++
      EvFunctionCall (contractID E) methodName (default [] args) 300000000000000 :: rest /\
    (rest = [] \/ (exists txHash, rest = [EvTxStatus txHash (contractID E)]) \/
     (exists error, rest = [EvConsoleDebug (DebugError error)])).
Proof.
  intros w'. subst w'.
  destruct (callMutativeFunction_shape methodName args w) as (r & rest & -> & Hrest).
  split; [now exists r |]. repeat split. now exists rest.
Qed.

Lemma callMutativeFunction_calls (methodName : string) (args : option bytes) (w : World) :
  exists r,
    fst (callMutativeFunction E methodName args w) = Return r /\
    keyStore (snd (callMutativeFunction E methodName args w)) = KeyStore.reKey (keyStore w) /\
    function_calls (trace (snd (callMutativeFunction E methodName args w)))
      = function_calls (trace w) ++ [methodName].
Proof.
  destruct (callMutativeFunction_shape methodName args w) as (r & rest & -> & Hrest).
  exists r. split; [reflexivity |]. split; [reflexivity |]. simpl.
  unfold function_calls. rewrite omap_app. f_equal. simpl. f_equal.
  destruct Hrest as [-> | [[txHash ->] | [error ->]]]; reflexivity.
Qed.

(** X13. [initialize] runs its two mutating calls in order and makes the
    second only when the first returned [Ok].  When [new] returns [Err], that
    error is the result, [new] is the only function call that the backend
    has seen, and the keys were rotated once.  When [new] returns [Ok],
    [new_eth_connector] follows, the keys were rotated twice, and the result
    is that of the second call, with its transaction identifier on
    success.  [initialize] does not throw. *)
Theorem initialize_sequence (newArgs connectorArgs : bytes) (w : World) :
  let first := callMutativeFunction E "new" (Some newArgs) w in
  let second := callMutativeFunction E "new_eth_connector" (Some connectorArgs) (snd first) in
  let final := snd (initialize E newArgs connectorArgs w) in
  (forall message, fst first = Return (Err message) ->
     fst (initialize E newArgs connectorArgs w) = Return (Err message) /\
     function_calls (trace final) = function_calls (trace w) ++ ["new"] /\
     keyStore final = KeyStore.reKey (keyStore w)) /\
  (forall o, fst first = Return (Ok o) ->
     (exists r, fst second = Return r /\
        fst (initialize E newArgs connectorArgs w)
          = Return (Result_map TransactionOutcome.id r)) /\
     function_calls (trace final) = function_calls (trace w) ++ ["new"; "new_eth_connector"] /\
     keyStore final = KeyStore.reKey (KeyStore.reKey (keyStore w))).
Proof.
  intros first second final.
  destruct (callMutativeFunction_calls "new" (Some newArgs) w) as (r1 & Hr1 & Hks1 & Hfc1).
  destruct (callMutativeFunction_calls "new_eth_connector" (Some connectorArgs) (snd first))
    as (r2 & Hr2 & Hks2 & Hfc2).
  fold first in Hr1, Hks1, Hfc1. fold second in Hr2, Hks2, Hfc2.
  assert (initialize E newArgs connectorArgs w =
          match fst first with
          | Return (Ok _) =>
              (match fst second with
               | Return r => Return (Result_map TransactionOutcome.id r)
               | Throw e => Throw e
               end, snd second)
          | Return (Err message) => (Return (Err message), snd first)
          | Throw e => (Throw e, snd first)
          end) as Hinit.
  { unfold initialize, promiseAndThen, bind, ret. fold first.
    destruct first as [[[o | message] | e] w1]; simpl; try reflexivity.
    unfold second. simpl.
    now destruct (callMutativeFunction E "new_eth_connector" (Some connectorArgs) w1)
      as [[r | e] w2]. }
  subst final. rewrite Hinit. split.
  - intros message Hfirst. rewrite Hfirst. simpl. auto.
  - intros o Hfirst. rewrite Hfirst. simpl. rewrite Hr2. split; [eauto |].
    split.
    + rewrite Hfc2, Hfc1, <- app_assoc. reflexivity.
    + now rewrite Hks2, Hks1.
Qed.

(** X14. [submit] never throws.  A hex string that does not parse is
    answered with [Err] of the parser's message (not [ERR_INVALID_TX]),
    without a call to the backend or a key rotation.  A transaction that the
    backend accepted but whose result does not decode is answered with [Err]
    of the decoder's message, after the call was made. *)
Theorem submit_never_throws (input : Input) (w : World) :
  (exists r, fst (submit E input w) = Return r) /\
  (forall s e, input = InputHex s -> parseHexString E s = Throw e ->
     submit E input w = (Return (Err (err_message e)), w)) /\
  (forall payload rawTransaction o w' e,
     prepareInput E (Some input) = Return payload ->
     parseRawTransaction E payload = Return rawTransaction ->
     21000 <= gasLimit rawTransaction ->
     callMutativeFunction E "submit" (Some payload) w = (Return (Ok o), w') ->
     SubmitResult_decode E (TransactionOutcome.output o) = Throw e ->
     submit E input w = (Return (Err (err_message e)), w')).
Proof.
  split; [| split].
  - unfold submit, try_catch, bind, lift, ret.
    destruct (prepareInput E (Some input)) as [payload | e]; [| eexists; reflexivity].
    destruct (parseRawTransaction E payload) as [rawTransaction | e]; [| eexists; reflexivity].
    destruct (gasLimit rawTransaction <? 21000); [eexists; reflexivity |].
    destruct (callMutativeFunction E "submit" (Some payload) w) as [[[o | message] | e] w'];
      try (eexists; reflexivity).
    destruct (SubmitResult_decode E (TransactionOutcome.output o)); eexists; reflexivity.
  - intros s e -> Hhex. unfold submit, try_catch, bind, lift, ret. simpl. now rewrite Hhex.
  - intros payload rawTransaction o w' e Hin Hparse Hgas Hcall Hdecode.
    apply N.ltb_ge in Hgas.
    unfold submit, try_catch, bind, lift, ret.
    now rewrite Hin, Hparse, Hgas, Hcall, Hdecode.
Qed.

(** X15. [getCode] shifts a selector given as a string, too: a tag or a
    hash [s] that is not empty goes to the backend as [s] followed by ['1'],
    and the caller's object holds that string afterwards.  Without a
    selector [getCode] leaves the options alone. *)
Theorem getCode_string_selector (address : Address) (s : string) (w : World) :
  s <> EmptyString ->
  let options := Some {| block := Given (BlockString s) |} in
  let shifted := Some {| block := Given (BlockString (s +:+ "1")) |} in
  getCode_options options = shifted /\
  getCode E address options w = callFunction E "get_code" (Some address) shifted w /\
  (exists rest,
     trace (snd (getCode E address options w))
       = trace w ++ EvQuery (view_request E "get_code" (Some address) shifted) :: rest) /\
  block_id (view_request E "get_code" (Some address) shifted)
    = Some (BlockString (s +:+ "1")) /\
  (forall o, selector (Some o) = Undefined \/ selector (Some o) = Null ->
     getCode_options (Some o) = Some o) /\
  getCode_options None = None.
Proof.
  intros Hs options shifted.
  assert (getCode_options options = shifted) as Hopt.
  { unfold getCode_options, options; simpl. now apply String.eqb_neq in Hs as ->. }
  split; [exact Hopt |]. split; [unfold getCode; now rewrite Hopt |].
  split; [| split; [reflexivity | split; [| reflexivity]]].
  - unfold getCode. rewrite Hopt, callFunction_eq. cbv zeta.
    destruct (provider_query E w _) as [response | e]; simpl.
    + destruct (logs response) as [[| line lines] |]; simpl;
        eexists; rewrite <- ?app_assoc; reflexivity.
    + eexists. reflexivity.
  - intros o Hsel. unfold getCode_options. simpl in Hsel.
    destruct Hsel as [-> | ->]; reflexivity.
Qed.
End EngineEffects.

(** ** [view] *)

Section ViewOutcomes.
Context {SubmitResult : Type} (E : Env SubmitResult).
Variable ViewCallArgs_encode : Address -> Address -> N -> bytes -> bytes.
Variable TransactionStatus_decode : bytes -> Res TransactionStatus.
Import Engine EngineCalls.

(** X16. The outer result of [view] is never [Err]: failures of the
    contract come back inside [Ok].  When the decoded status has a success
    output, that output is the answer; when it has none but has a revert
    output, the revert output is the answer, in the same shape as a
    success; only when it has neither is the answer an inner [Err]. *)
Theorem view_outcomes (sender address : Address) (amount : N) (input : Input)
    (options : option ViewOptions) (w : World) :
  let call := view E ViewCallArgs_encode TransactionStatus_decode
                sender address amount input options w in
  (forall message, fst call <> Return (Err message)) /\
  (forall payload response status,
     prepareInput E (Some input) = Return payload ->
     provider_query E w
       (view_request E "view" (Some (ViewCallArgs_encode sender address amount payload)) options)
       = Return response ->
     TransactionStatus_decode (result response) = Return status ->
     (forall output, success status = Some output -> fst call = Return (Ok (Ok output))) /\
     (forall output, success status = None -> revert status = Some output ->
        fst call = Return (Ok (Ok output))) /\
     (success status = None -> revert status = None ->
        exists failure, fst call = Return (Ok (Err failure)))).
Proof.
  intros call. subst call. unfold view, bind, lift, ret. split.
  - intros message.
    destruct (prepareInput E (Some input)) as [payload | e]; [| discriminate].
    rewrite callFunction_eq. cbv zeta.
    destruct (provider_query E w _) as [response | e]; [| discriminate]. simpl.
    destruct (TransactionStatus_decode (result response)); discriminate.
  - intros payload response status Hin Hquery Hdecode.
    rewrite Hin, callFunction_eq. cbv zeta. rewrite Hquery. simpl. rewrite Hdecode.
    unfold view_status. split; [| split].
    + now intros output ->.
    + now intros output -> ->.
    + intros -> ->. simpl.
      destruct (outOfGas status); [eexists; reflexivity |].
      destruct (outOfFund status); [eexists; reflexivity |].
      destruct (outOfOffset status); [eexists; reflexivity |].
      destruct (callTooDeep status); eexists; reflexivity.
Qed.
End ViewOutcomes.

(** ** [getStorage], record by record *)

Section StorageScan.
Context {SubmitResult : Type} (E : Env SubmitResult).
Import Engine.

Lemma is_config_prefix (r : StateRecord) :
  is_prefix (head (key r)) EngineStorageKeyPrefix.Config = Demux.is_config r.
Proof. unfold Demux.is_config. now destruct (key r). Qed.

Lemma record_address (r : StateRecord) :
  toString_hex (if is_prefix (head (key r)) EngineStorageKeyPrefix.Storage
                then take 20 (drop 1 (key r)) else drop 1 (key r))
  = Demux.address_of r.
Proof.
  unfold Demux.address_of. destruct (key r) as [| d rest]; [reflexivity |].
  simpl. unfold EngineStorageKeyPrefix.Storage. rewrite drop_0.
  now destruct (Byte.to_N d =? 4).
Qed.

(** One turn of the loop, by cases. *)
Lemma getStorage_record_eq (result : gmap string AddressState.t) (r : StateRecord) :
  getStorage_record E result r =
  if Demux.is_config r then Return result
  else
    let a := Demux.address_of r in
    match result !! a with
    | Some st => Return (<[a := record_write r st]> result)
    | None =>
        match Address_parse E a with
        | Ok addr => Return (<[a := record_write r (AddressState.new addr)]> result)
        | Err message => Throw (unwrap_error E message)
        end
    end.
Proof.
  unfold getStorage_record. rewrite is_config_prefix, record_address.
  destruct (Demux.is_config r); [reflexivity |]. cbv zeta.
  destruct (result !! Demux.address_of r) as [st |] eqn:Hst.
  - rewrite Hst. reflexivity.
  - unfold unwrap. destruct (Address_parse E (Demux.address_of r)) as [addr | message];
      [| reflexivity].
    rewrite lookup_insert_eq, insert_insert_eq. reflexivity.
Qed.

Lemma record_write_address (r : StateRecord) (st : AddressState.t) :
  AddressState.address (record_write r st) = AddressState.address st.
Proof.
  unfold record_write.
  repeat match goal with |- context [if ?b then _ else _] => destruct b end; reflexivity.
Qed.

Lemma getStorage_loop_app (before after : list StateRecord)
    (result : gmap string AddressState.t) :
  getStorage_loop E result (before ++ after) =
  match getStorage_loop E result before with
  | Return result' => getStorage_loop E result' after
  | Throw e => Throw e
  end.
Proof.
  revert result. induction before as [| r before IH]; intros result; simpl; [reflexivity |].
  destruct (getStorage_record E result r); [apply IH | reflexivity].
Qed.

(** A record that parses is taken in: the map gains at most the entry of
    its address. *)
Lemma getStorage_record_entries (result : gmap string AddressState.t) (r : StateRecord) :
  parses E r ->
  Demux.keyed_by_address E result ->
  exists result',
    getStorage_record E result r = Return result' /\
    Demux.keyed_by_address E result' /\
    forall a, is_Some (result' !! a) <->
              is_Some (result !! a) \/ (Demux.is_config r = false /\ Demux.address_of r = a).
Proof.
  intros Hparse Hkeyed. rewrite getStorage_record_eq.
  destruct (Demux.is_config r) eqn:Hcfg.
  { exists result. split; [reflexivity |]. split; [exact Hkeyed |].
    intros a. split; [tauto | intros [H | [H _]]; [exact H | discriminate]]. }
  destruct (Hparse Hcfg) as [addr Haddr]. cbv zeta.
  assert (forall st a, is_Some (<[Demux.address_of r := st]> result !! a) <->
            is_Some (result !! a) \/ (false = false /\ Demux.address_of r = a)) as Hdom.
  { intros st a. rewrite lookup_insert. case_decide as Heq.
    - split; [intros _; now right | intros _; eauto].
    - split; [tauto | intros [H | [_ H]]; [exact H | contradiction]]. }
  destruct (result !! Demux.address_of r) as [st |] eqn:Hst.
  - eexists. split; [reflexivity |]. split; [| apply Hdom].
    apply keyed_by_address_insert; [exact Hkeyed |].
    rewrite record_write_address. apply (Hkeyed _ _ Hst).
  - rewrite Haddr. eexists. split; [reflexivity |]. split; [| apply Hdom].
    apply keyed_by_address_insert; [exact Hkeyed |].
    now rewrite record_write_address.
Qed.

Lemma getStorage_loop_entries (records : list StateRecord)
    (result : gmap string AddressState.t) :
  Forall (parses E) records ->
  Demux.keyed_by_address E result ->
  exists result',
    getStorage_loop E result records = Return result' /\
    Demux.keyed_by_address E result' /\
    forall a, is_Some (result' !! a) <->
              is_Some (result !! a) \/
              exists r, r ∈ records /\ Demux.is_config r = false /\ Demux.address_of r = a.
Proof.
  intros Hall. revert result.
  induction Hall as [| r records Hr _ IH]; intros result Hkeyed.
  - exists result. split; [reflexivity |]. split; [exact Hkeyed |].
    intros a. split; [tauto | intros [H | (r & Hin & _)]; [exact H |]].
    now apply elem_of_nil in Hin.
  - destruct (getStorage_record_entries result r Hr Hkeyed) as (result1 & Hstep & Hkeyed1 & Hdom1).
    destruct (IH result1 Hkeyed1) as (result' & Hloop & Hkeyed' & Hdom').
    exists result'. cbn [getStorage_loop]. rewrite Hstep.
    split; [exact Hloop |]. split; [exact Hkeyed' |].
    intros a. rewrite Hdom', Hdom1. split.
    + intros [[H | [Hc Ha]] | (r' & Hin & Hc & Ha)]; [now left | right | right].
      * exists r. split; [apply list_elem_of_here | auto].
      * exists r'. split; [now apply list_elem_of_further | auto].
    + intros [H | (r' & Hin & Hc & Ha)]; [now left; left |].
      apply elem_of_cons in Hin as [-> | Hin]; [left; right; auto |].
      right. exists r'. auto.
Qed.

Lemma keyed_by_address_empty : Demux.keyed_by_address E ∅.
Proof. intros a st. now rewrite lookup_empty. Qed.

(** X17. When every record of the scan parses, the map that [getStorage]
    builds has an entry for an address exactly when some record other than a
    Config record is about that address, whatever the discriminator of that
    record: a record with a discriminator that the engine does not know still
    enters its address.  A scan of Config records alone gives the empty
    map. *)
Theorem getStorage_entries (records : list StateRecord) :
  Forall (parses E) records ->
  exists result,
    getStorage_loop E ∅ records = Return result /\
    (forall a, is_Some (result !! a) <->
       exists r, r ∈ records /\ Demux.is_config r = false /\ Demux.address_of r = a) /\
    (Forall (fun r => Demux.is_config r = true) records -> result = ∅).
Proof.
  intros Hall.
  destruct (getStorage_loop_entries records ∅ Hall keyed_by_address_empty)
    as (result & Hloop & _ & Hdom).
  exists result. split; [exact Hloop |].
  assert (forall a, is_Some (result !! a) <->
            exists r, r ∈ records /\ Demux.is_config r = false /\ Demux.address_of r = a) as Hdom'.
  { intros a. rewrite Hdom, lookup_empty. split; [| now right].
    intros [[x Hx] | H]; [discriminate | exact H]. }
  split; [exact Hdom' |].
  intros Hcfg. apply map_empty. intros a.
  destruct (result !! a) eqn:Ha; [| reflexivity].
  destruct (proj1 (Hdom' a)) as (r & Hin & Hc & _); [eauto |].
  rewrite Forall_forall in Hcfg. rewrite (Hcfg r Hin) in Hc. discriminate.
Qed.

(** X18. [getStorage] never answers [Err].  When the scan has a record,
    other than a Config record, whose address [Address.parse] rejects, and
    the records before it parse, the loop throws what [unwrap()] throws for
    that rejection, the records after it are not looked at, and [getStorage]
    throws it to the caller. *)
Theorem getStorage_rejects_address (before after : list StateRecord) (r : StateRecord)
    (message : string) (w : World) :
  Forall (parses E) before ->
  Demux.is_config r = false ->
  Address_parse E (Demux.address_of r) = Err message ->
  getStorage_loop E ∅ (before ++ r :: after) = Throw (unwrap_error E message) /\
  (near_account E w (contractID E) = Return tt ->
   account_viewState E (recorded (EvAccount (contractID E)) w) EmptyString "final"
     = Return (before ++ r :: after) ->
   fst (getStorage E w) = Throw (unwrap_error E message)) /\
  (forall message', fst (getStorage E w) <> Return (Err message')).
Proof.
  intros Hall Hcfg Hbad.
  assert (getStorage_loop E ∅ (before ++ r :: after) = Throw (unwrap_error E message)) as Hloop.
  { destruct (getStorage_loop_entries before ∅ Hall keyed_by_address_empty)
      as (result & Hloop & Hkeyed & _).
    rewrite getStorage_loop_app, Hloop. cbn [getStorage_loop].
    rewrite getStorage_record_eq, Hcfg. cbv zeta.
    destruct (result !! Demux.address_of r) as [st |] eqn:Hst.
    - rewrite (Hkeyed _ _ Hst) in Hbad. discriminate.
    - now rewrite Hbad. }
  split; [exact Hloop |]. split.
  - intros Hacc Hscan. unfold getStorage, getAccount, bind, ask, lift, ret.
    now rewrite Hacc, Hscan, Hloop.
  - intros message'. unfold getStorage, getAccount, bind, ask, lift, ret.
    destruct (near_account E w (contractID E)); [| discriminate].
    destruct (account_viewState E _ EmptyString "final") as [records |]; [| discriminate].
    destruct (getStorage_loop E ∅ records); discriminate.
Qed.
End StorageScan.

(** ** [getStorage]: the last write wins, and keys name addresses *)

Section LastWrite.
Context {SubmitResult : Type} (E : Env SubmitResult).
Import Engine.

Section Field.
Variable tag : N.
Variable proj : AddressState.t -> N.
Hypothesis tag_not_config : tag <> 0.
Hypothesis proj_write : forall r st,
  proj (record_write r st)
  = if is_prefix (head (key r)) tag then toBigIntBE (value r) else proj st.

Lemma writes_not_config (a : string) (r : StateRecord) :
  writes tag a r -> Demux.is_config r = false.
Proof.
  intros [Htag _]. unfold Demux.is_config. destruct (key r) as [| d rest]; [reflexivity |].
  simpl in Htag. apply N.eqb_eq in Htag. apply N.eqb_neq. congruence.
Qed.

Lemma record_keeps_field (result result' : gmap string AddressState.t) (r : StateRecord)
    (a : string) (st : AddressState.t) :
  getStorage_record E result r = Return result' ->
  result !! a = Some st ->
  ~ writes tag a r ->
  exists st', result' !! a = Some st' /\ proj st' = proj st.
Proof.
  rewrite getStorage_record_eq. intros Hstep Hst Hother.
  destruct (Demux.is_config r); [injection Hstep as <-; eauto |]. cbv zeta in Hstep.
  destruct (decide (Demux.address_of r = a)) as [Heq | Hne].
  - rewrite Heq, Hst in Hstep. injection Hstep as <-.
    rewrite lookup_insert_eq. eexists. split; [reflexivity |].
    rewrite proj_write.
    destruct (is_prefix (head (key r)) tag) eqn:Htag; [| reflexivity].
    destruct Hother. now split.
  - destruct (result !! Demux.address_of r) as [st0 |].
    + injection Hstep as <-. rewrite lookup_insert_ne by exact Hne. eauto.
    + destruct (Address_parse E (Demux.address_of r)); [| discriminate].
      injection Hstep as <-. rewrite lookup_insert_ne by exact Hne. eauto.
Qed.

Lemma loop_keeps_field (records : list StateRecord) (result result' : gmap string AddressState.t)
    (a : string) (st : AddressState.t) :
  Forall (fun r => ~ writes tag a r) records ->
  getStorage_loop E result records = Return result' ->
  result !! a = Some st ->
  exists st', result' !! a = Some st' /\ proj st' = proj st.
Proof.
  intros Hall. revert result st.
  induction Hall as [| r records Hr _ IH]; intros result st Hloop Hst.
  - injection Hloop as <-. eauto.
  - cbn [getStorage_loop] in Hloop.
    destruct (getStorage_record E result r) as [result1 |] eqn:Hstep; [| discriminate].
    destruct (record_keeps_field result result1 r a st Hstep Hst Hr) as (st1 & Hst1 & Hp1).
    destruct (IH result1 st1 Hloop Hst1) as (st' & Hst' & Hp').
    exists st'. split; [exact Hst' | congruence].
Qed.

Lemma record_sets_field (result result' : gmap string AddressState.t) (r : StateRecord) :
  getStorage_record E result r = Return result' ->
  writes tag (Demux.address_of r) r ->
  exists st, result' !! Demux.address_of r = Some st /\ proj st = toBigIntBE (value r).
Proof.
  rewrite getStorage_record_eq. intros Hstep Hw.
  rewrite (writes_not_config _ r Hw) in Hstep. cbv zeta in Hstep.
  destruct Hw as [Htag _].
  destruct (result !! Demux.address_of r) as [st0 |].
  - injection Hstep as <-. rewrite lookup_insert_eq. eexists. split; [reflexivity |].
    now rewrite proj_write, Htag.
  - destruct (Address_parse E (Demux.address_of r)); [| discriminate].
    injection Hstep as <-. rewrite lookup_insert_eq. eexists. split; [reflexivity |].
    now rewrite proj_write, Htag.
Qed.

Lemma last_write_wins (before after : list StateRecord) (r : StateRecord)
    (result : gmap string AddressState.t) :
  getStorage_loop E ∅ (before ++ r :: after) = Return result ->
  is_prefix (head (key r)) tag = true ->
  Forall (fun r' => ~ writes tag (Demux.address_of r) r') after ->
  exists st, result !! Demux.address_of r = Some st /\ proj st = toBigIntBE (value r).
Proof.
  intros Hloop Htag Hafter. rewrite getStorage_loop_app in Hloop.
  destruct (getStorage_loop E ∅ before) as [result0 |]; [| discriminate].
  cbn [getStorage_loop] in Hloop.
  destruct (getStorage_record E result0 r) as [result1 |] eqn:Hstep; [| discriminate].
  destruct (record_sets_field result0 result1 r Hstep) as (st1 & Hst1 & Hp1); [now split |].
  destruct (loop_keeps_field after result1 result _ st1 Hafter Hloop Hst1) as (st & Hst & Hp).
  exists st. split; [exact Hst | congruence].
Qed.
End Field.

Lemma nonce_write (r : StateRecord) (st : AddressState.t) :
  AddressState.nonce (record_write r st)
  = if is_prefix (head (key r)) EngineStorageKeyPrefix.Nonce
    then toBigIntBE (value r) else AddressState.nonce st.
Proof.
  unfold record_write.
  repeat match goal with |- context [if ?b then _ else _] => destruct b end; reflexivity.
Qed.

Lemma balance_write (r : StateRecord) (st : AddressState.t) :
  AddressState.balance (record_write r st)
  = if is_prefix (head (key r)) EngineStorageKeyPrefix.Balance
    then toBigIntBE (value r) else AddressState.balance st.
Proof.
  unfold record_write, is_prefix, EngineStorageKeyPrefix.Nonce, EngineStorageKeyPrefix.Balance,
    EngineStorageKeyPrefix.Code, EngineStorageKeyPrefix.Storage.
  destruct (head (key r)) as [d |]; [| reflexivity].
  destruct (N.eqb_spec (Byte.to_N d) 1) as [-> | _]; [reflexivity |].
  repeat match goal with |- context [if ?b then _ else _] => destruct b end; reflexivity.
Qed.

(** X19. In the map that [getStorage] builds, the nonce of an address is the
    value of the last Nonce record for that address in the scan, and the
    balance is the value of the last Balance record: records for other
    addresses, and records of other kinds for the same address, do not
    change them. *)
Theorem getStorage_last_write (before after : list StateRecord) (r : StateRecord) :
  Forall (parses E) (before ++ r :: after) ->
  exists result,
    getStorage_loop E ∅ (before ++ r :: after) = Return result /\
    (is_prefix (head (key r)) EngineStorageKeyPrefix.Nonce = true ->
     Forall (fun r' => ~ writes EngineStorageKeyPrefix.Nonce (Demux.address_of r) r') after ->
     exists st, result !! Demux.address_of r = Some st /\
                AddressState.nonce st = toBigIntBE (value r)) /\
    (is_prefix (head (key r)) EngineStorageKeyPrefix.Balance = true ->
     Forall (fun r' => ~ writes EngineStorageKeyPrefix.Balance (Demux.address_of r) r') after ->
     exists st, result !! Demux.address_of r = Some st /\
                AddressState.balance st = toBigIntBE (value r)).
Proof.
  intros Hall.
  destruct (getStorage_loop_entries E _ ∅ Hall (keyed_by_address_empty E))
    as (result & Hloop & _).
  exists result. split; [exact Hloop |]. split; intros Htag Hafter.
  - apply (last_write_wins EngineStorageKeyPrefix.Nonce AddressState.nonce)
      with (before := before) (after := after); try assumption.
    + discriminate.
    + apply nonce_write.
  - apply (last_write_wins EngineStorageKeyPrefix.Balance AddressState.balance)
      with (before := before) (after := after); try assumption.
    + discriminate.
    + apply balance_write.
Qed.
End LastWrite.

Section HexKeys.

Lemma String_append_cons (c : ascii) (s t : string) :
  String c s +:+ t = String c (s +:+ t).
Proof. reflexivity. Qed.

Lemma String_append_nil_l (t : string) : EmptyString +:+ t = t.
Proof. reflexivity. Qed.

Lemma String_append_nil_r (s : string) : s +:+ EmptyString = s.
Proof.
  induction s as [| c s IH]; [reflexivity |].
  now rewrite String_append_cons, IH.
Qed.

Lemma concat_empty_cons (x : string) (xs : list string) :
  String.concat EmptyString (x :: xs) = x +:+ String.concat EmptyString xs.
Proof.
  destruct xs as [| y ys]; [| reflexivity].
  cbn [String.concat]. now rewrite String_append_nil_r.
Qed.

Lemma hex_of_byte_digits (b : byte) :
  exists hi lo h l,
    hex_of_byte b = String hi (String lo EmptyString) /\
    hex_value hi = Some h /\ hex_value lo = Some l /\ Byte.of_N (h * 16 + l) = Some b.
Proof. destruct b; do 4 eexists; repeat split. Qed.

Lemma fromHex_toString_hex (bs : bytes) : fromHex (toString_hex bs) = Some bs.
Proof.
  induction bs as [| b bs IH]; [reflexivity |].
  unfold toString_hex in *. cbn [List.map]. rewrite concat_empty_cons.
  destruct (hex_of_byte_digits b) as (hi & lo & h & l & -> & Hh & Hl & Hb).
  rewrite !String_append_cons, String_append_nil_l.
  cbn [fromHex]. now rewrite Hh, Hl, IH, Hb.
Qed.

Lemma toString_hex_length (bs : bytes) :
  String.length (toString_hex bs) = (2 * length bs)%nat.
Proof.
  induction bs as [| b bs IH]; [reflexivity |].
  unfold toString_hex in *. cbn [List.map]. rewrite concat_empty_cons.
  destruct (hex_of_byte_digits b) as (hi & lo & h & l & -> & _).
  rewrite !String_append_cons, String_append_nil_l.
  cbn [String.length]. rewrite IH. simpl. lia.
Qed.

(** X20. The key of an Address State names its address without ambiguity:
    hex encoding is injective and gives two digits per byte, so two records
    that are not Storage records fall into the same entry exactly when their
    keys carry the same address bytes; and a Storage record falls into the
    entry of the 20 bytes that follow its discriminator. *)
Theorem address_keys_unambiguous (r1 r2 : StateRecord) (d1 d2 : byte) (a1 a2 : bytes) :
  key r1 = d1 :: a1 ->
  key r2 = d2 :: a2 ->
  Byte.to_N d2 <> 4 ->
  (Byte.to_N d1 <> 4 ->
   (Demux.address_of r1 = Demux.address_of r2 <-> a1 = a2) /\
   String.length (Demux.address_of r1) = (2 * length a1)%nat) /\
  (Byte.to_N d1 = 4 -> length a2 = 20%nat ->
   forall slot, a1 = a2 ++ slot -> Demux.address_of r1 = Demux.address_of r2).
Proof.
  intros Hk1 Hk2 Hd2. unfold Demux.address_of. rewrite Hk1, Hk2.
  apply N.eqb_neq in Hd2. rewrite Hd2. split.
  - intros Hd1. apply N.eqb_neq in Hd1. rewrite Hd1. split; [| apply toString_hex_length].
    split; [| now intros ->].
    intros Heq. apply (f_equal fromHex) in Heq.
    rewrite !fromHex_toString_hex in Heq. now injection Heq.
  - intros Hd1 Hlen slot ->. apply N.eqb_eq in Hd1. rewrite Hd1.
    now rewrite <- Hlen, take_app_length.
Qed.
End HexKeys.

(** ** Balances and nonces *)

Section Quantities.
Context {SubmitResult : Type} (E : Env SubmitResult).
Import Engine EngineCalls.

Lemma fold_left_BE (bs : bytes) (acc : N) :
  List.fold_left (fun acc b => acc * 256 + Byte.to_N b) bs acc
  = acc * 256 ^ N.of_nat (length bs) + toBigIntBE bs.
Proof.
  unfold toBigIntBE. revert acc. induction bs as [| b bs IH]; intros acc.
  - simpl. lia.
  - cbn [List.fold_left length]. rewrite IH, (IH (0 * 256 + Byte.to_N b)).
    rewrite Nat2N.inj_succ, N.pow_succ_r'. lia.
Qed.

Lemma toBigIntBE_bound (bs : bytes) : toBigIntBE bs < 256 ^ N.of_nat (length bs).
Proof.
  induction bs as [| b bs IH]; [reflexivity |].
  unfold toBigIntBE. cbn [List.fold_left length]. rewrite fold_left_BE.
  rewrite Nat2N.inj_succ, N.pow_succ_r'.
  pose proof (Byte.to_N_bounded b). nia.
Qed.

Lemma toBigIntBE_zeros (n : nat) (bs : bytes) :
  toBigIntBE (List.repeat x00 n ++ bs) = toBigIntBE bs.
Proof.
  induction n as [| n IH]; [reflexivity |].
  unfold toBigIntBE in *. simpl. exact IH.
Qed.

(** X21. [getBalance] and [getNonce] answer [Ok] of the backend's bytes
    read as a big-endian unsigned integer, so an answer of [n] bytes is below
    256^n (a 32-byte answer is a 256-bit quantity), leading zero bytes do not
    count and an empty answer is 0; they never answer [Err], and what the
    backend throws is thrown to the caller. *)
Theorem getBalance_quantity (address : Address) (options : option ViewOptions) (w : World) :
  (forall response,
     provider_query E w (view_request E "get_balance" (Some address) options) = Return response ->
     fst (getBalance E address options w) = Return (Ok (toBigIntBE (result response))) /\
     toBigIntBE (result response) < 256 ^ N.of_nat (length (result response)) /\
     (result response = [] -> fst (getBalance E address options w) = Return (Ok 0)) /\
     (forall n bs, result response = List.repeat x00 n ++ bs ->
        fst (getBalance E address options w) = Return (Ok (toBigIntBE bs)))) /\
  (forall response,
     provider_query E w (view_request E "get_nonce" (Some address) options) = Return response ->
     fst (getNonce E address options w) = Return (Ok (toBigIntBE (result response))) /\
     toBigIntBE (result response) < 256 ^ N.of_nat (length (result response))) /\
  (forall e,
     provider_query E w (view_request E "get_balance" (Some address) options) = Throw e ->
     fst (getBalance E address options w) = Throw e) /\
  (forall message, fst (getBalance E address options w) <> Return (Err message)) /\
  (forall message, fst (getNonce E address options w) <> Return (Err message)).
Proof.
  unfold getBalance, getNonce, bind, ret. rewrite !callFunction_eq. cbv zeta.
  split; [| split; [| split; [| split]]].
  - intros response ->. simpl. split; [reflexivity |]. split; [apply toBigIntBE_bound |].
    split; [now intros -> |]. intros n bs ->. now rewrite toBigIntBE_zeros.
  - intros response ->. simpl. split; [reflexivity | apply toBigIntBE_bound].
  - now intros e ->.
  - intros message. destruct (provider_query E w _); discriminate.
  - intros message. destruct (provider_query E w _); discriminate.
Qed.
End Quantities.

(** ** The further properties at work *)

Section MoreExamples.
Import InMemoryMultiKeyStore Engine EngineCalls.

Lemma two_key_store_well_kept : well_kept two_key_store.
Proof.
  split.
  - apply (bool_decide_unpack _). vm_compute. exact I.
  - repeat constructor; simpl; try discriminate;
      apply (bool_decide_unpack _); vm_compute; exact I.
Qed.

Lemma well_kept_preserved_witness :
  well_kept (removeKey "testnet" "alice.testnet" two_key_store) /\
  well_kept (setKey "testnet" "alice.testnet" 7%nat two_key_store).
Proof.
  destruct (well_kept_preserved two_key_store "testnet" "alice.testnet" 7%nat)
    as (_ & Hkeep).
  destruct (Hkeep two_key_store_well_kept) as (Hset & Hremove & _).
  split; assumption.
Defined.

Lemma setKey_then_getKey_witness :
  getKey "testnet" "zoe.testnet" (setKey "testnet" "zoe.testnet" 30%nat two_key_store)
  = Some 30%nat.
Proof.
  destruct (setKey_then_getKey two_key_store "zoe.testnet" 30%nat) as (_ & _ & _ & Hfirst).
  apply Hfirst. reflexivity.
Defined.

Lemma other_accounts_untouched_witness :
  getKey "testnet" "bob.testnet" (removeKey "testnet" "alice.testnet" two_key_store)
  = getKey "testnet" "bob.testnet" two_key_store.
Proof.
  destruct (other_accounts_untouched two_key_store "testnet" "alice.testnet" "bob.testnet" 0%nat)
    as (_ & _ & _ & Hremove); [discriminate |].
  apply Hremove.
Defined.

Lemma removeKey_forgets_witness :
  getKey "testnet" "alice.testnet" (removeKey "testnet" "alice.testnet" two_key_store) = None.
Proof.
  destruct (removeKey_forgets two_key_store "alice.testnet" two_key_store_well_kept)
    as (Hgone & _).
  exact Hgone.
Defined.

Lemma listed_iff_has_key_witness :
  "bob.testnet" ∈ getAccounts "testnet" two_key_store.
Proof.
  apply (listed_iff_has_key two_key_store "bob.testnet" two_key_store_well_kept).
  vm_compute. eauto.
Defined.

Lemma single_key_rotation_witness :
  getKey "testnet" "bob.testnet" (reKeys 5 two_key_store) = Some 9%nat.
Proof.
  destruct (single_key_rotation two_key_store "bob.testnet" 9%nat 5) as (Hkey & _);
    [reflexivity |].
  exact Hkey.
Defined.

Lemma callFunction_never_Err_witness :
  fst (callFunction demo_env "get_version" None None demo_world) = Return (Ok [x2a]).
Proof.
  destruct (callFunction_never_Err demo_env "get_version" None None demo_world) as (Hok & _).
  apply (Hok (mkQueryResponse None [x2a])). reflexivity.
Defined.

Lemma initialize_sequence_witness :
  function_calls (trace (snd (initialize demo_env [x01] [x02] demo_world))) = ["new"].
Proof.
  destruct (initialize_sequence demo_env [x01] [x02] demo_world) as (Hfail & _).
  destruct (Hfail ("wasm trap: boom|" +:+ TransactionErrorDetails.stringify demo_details))
    as (_ & Hcalls & _); [vm_compute; reflexivity |].
  exact Hcalls.
Defined.

Lemma submit_never_throws_witness :
  submit demo_env (InputHex "0xzz") demo_world
  = (Return (Err "invalid arrayify value"), demo_world).
Proof.
  destruct (submit_never_throws demo_env (InputHex "0xzz") demo_world) as (_ & Hhex & _).
  apply (Hhex "0xzz" (TypeError "invalid arrayify value")); reflexivity.
Defined.

Lemma getCode_string_selector_witness :
  getCode_options (Some {| block := Given (BlockString "latest") |})
  = Some {| block := Given (BlockString "latest1") |}.
Proof.
  destruct (getCode_string_selector demo_env addrA "latest" demo_world) as (Hopt & _);
    [discriminate |].
  exact Hopt.
Defined.

Lemma view_outcomes_witness :
  fst (view demo_env demo_encode (fun _ => demo_decode [x00; x07])
         addrA addrB 0 (InputBytes []) None demo_world)
  = Return (Ok (Ok [x07])).
Proof.
  destruct (view_outcomes demo_env demo_encode (fun _ => demo_decode [x00; x07])
              addrA addrB 0 (InputBytes []) None demo_world) as (_ & Hcases).
  destruct (Hcases [] (mkQueryResponse None [x2a])
              (mkTransactionStatus None (Some [x07]) false false false false)
              eq_refl eq_refl eq_refl)
    as (_ & Hrevert & _).
  exact (Hrevert [x07] eq_refl eq_refl).
Defined.

Lemma demo_rewrites_parse : Forall (parses demo_env) demo_rewrites.
Proof. repeat constructor; intros _; eexists; vm_compute; reflexivity. Qed.

Lemma getStorage_entries_witness :
  exists result,
    getStorage_loop demo_env ∅ demo_rewrites = Return result /\
    is_Some (result !! toString_hex addrB).
Proof.
  destruct (getStorage_entries demo_env demo_rewrites demo_rewrites_parse)
    as (result & Hloop & Hdom & _).
  exists result. split; [exact Hloop |]. apply Hdom.
  exists (mkStateRecord (x09 :: addrB) [xff]).
  split; [| split; reflexivity].
  do 5 apply list_elem_of_further. apply list_elem_of_here.
Defined.

Lemma getStorage_rejects_address_witness :
  getStorage_loop demo_env ∅ demo_bad_records
  = Throw (unwrap_error demo_env "invalid address").
Proof.
  destruct (getStorage_rejects_address demo_env
              [mkStateRecord (x01 :: addrA) [x05]]
              [mkStateRecord (x04 :: addrA ++ slot1) [x07]]
              (mkStateRecord [x02; xff] [x64]) "invalid address" demo_world)
    as (Hloop & _).
  - repeat constructor; intros _; eexists; vm_compute; reflexivity.
  - reflexivity.
  - reflexivity.
  - exact Hloop.
Defined.

Lemma getStorage_last_write_witness :
  exists result st,
    getStorage_loop demo_env ∅ demo_rewrites = Return result /\
    result !! toString_hex addrA = Some st /\
    AddressState.nonce st = 256.
Proof.
  destruct (getStorage_last_write demo_env
              [ mkStateRecord (x01 :: addrA) [x05];
                mkStateRecord (x02 :: addrA) [x64];
                mkStateRecord (x01 :: addrB) [x09] ]
              [ mkStateRecord (x00 :: addrA) [xff];
                mkStateRecord (x09 :: addrB) [xff] ]
              (mkStateRecord (x01 :: addrA) [x01; x00]) demo_rewrites_parse)
    as (result & Hloop & Hnonce & _).
  destruct Hnonce as (st & Hst & Hn); [reflexivity | |].
  - repeat constructor; intros [Htag _]; discriminate Htag.
  - exists result, st. split; [exact Hloop |]. split; [exact Hst | exact Hn].
Defined.

Lemma address_keys_unambiguous_witness :
  Demux.address_of (mkStateRecord (x04 :: addrA ++ slot1) [x07])
  = Demux.address_of (mkStateRecord (x01 :: addrA) [x05]).
Proof.
  destruct (address_keys_unambiguous
              (mkStateRecord (x04 :: addrA ++ slot1) [x07])
              (mkStateRecord (x01 :: addrA) [x05])
              x04 x01 (addrA ++ slot1) addrA eq_refl eq_refl) as (_ & Hstorage);
    [discriminate |].
  apply (Hstorage eq_refl eq_refl slot1 eq_refl).
Defined.

Lemma getBalance_quantity_witness :
  fst (getBalance demo_env addrA None demo_world) = Return (Ok 42).
Proof.
  destruct (getBalance_quantity demo_env addrA None demo_world) as (Hok & _).
  destruct (Hok (mkQueryResponse None [x2a])) as (Hvalue & _); [reflexivity |].
  exact Hvalue.
Defined.
End MoreExamples.

(** ** Counting the transactions of a block *)

Section BlockTransactionCount.
Import BlockCount.
Variable provider_block : BlockID -> Res BlockResult.
Variable provider_chunk : string -> Res N.
Variable first_rejected : list JsError -> JsError.

Lemma fold_left_add (l : list N) (acc : N) :
  List.fold_left (fun a b => a + b) l acc = acc + List.fold_right N.add 0 l.
Proof.
  revert acc. induction l as [| x l IH]; intros acc; simpl; [lia |].
  rewrite IH. lia.
Qed.

Lemma rejections_Return (n : N) (outcomes : list (Res N)) :
  rejections (Return n :: outcomes) = rejections outcomes.
Proof. reflexivity. Qed.

Lemma fulfilled_Return (n : N) (outcomes : list (Res N)) :
  fulfilled (Return n :: outcomes) = n :: fulfilled outcomes.
Proof. reflexivity. Qed.

Lemma masked_elem_of (chunkHeader : ChunkHeader) (chunks : list ChunkHeader) (mask : list bool) :
  chunkHeader ∈ masked chunks mask ->
  exists i, chunks !! i = Some chunkHeader /\ mask !! i = Some true.
Proof.
  revert mask. induction chunks as [| c chunks IH]; intros [| bit mask]; simpl;
    try (intros H; now apply elem_of_nil in H).
  destruct bit.
  - intros [-> | H]%elem_of_cons; [now exists 0%nat |].
    destruct (IH mask H) as (i & Hc & Hm). now exists (S i).
  - intros H. destruct (IH mask H) as (i & Hc & Hm). now exists (S i).
Qed.

(** X22. [getBlockTransactionCount] sends a request for exactly the chunks
    whose bit in the chunk mask is set and whose transaction root is not the
    empty one, in the order of the block: a chunk that is masked out, lies
    beyond the end of the mask, or has no transactions is never requested.
    When the block and every requested chunk arrive, the result is [Ok] of
    the sum of their transaction counts; when a requested chunk does not
    arrive, the result is an [Err]; when the block does not arrive, it is
    [Err] of that error's message and no chunk is requested. *)
Theorem getBlockTransactionCount_sum (blockID : BlockID) :
  let call := getBlockTransactionCount provider_block provider_chunk first_rejected blockID in
  (forall error, provider_block blockID = Throw error ->
     call = (Err (err_message error), [])) /\
  (forall block, provider_block blockID = Return block ->
     snd call = requested block /\
     (forall hash, hash ∈ snd call ->
        exists i chunkHeader,
          chunks block !! i = Some chunkHeader /\ chunk_mask block !! i = Some true /\
          tx_root chunkHeader <> empty_tx_root /\ chunk_hash chunkHeader = hash) /\
     (forall counts,
        List.map provider_chunk (requested block) = List.map Return counts ->
        fst call = Ok (List.fold_right N.add 0 counts)) /\
     (forall hash error,
        hash ∈ requested block -> provider_chunk hash = Throw error ->
        exists message, fst call = Err message)).
Proof.
  intros call. subst call. unfold getBlockTransactionCount. split.
  - now intros error ->.
  - intros block ->. cbv zeta.
    set (selected := masked (chunks block) (chunk_mask block)).
    match goal with |- snd ?m = _ /\ _ => set (call := m) end.
    assert (snd call = requested block) as Hsnd.
    { subst call. now destruct (rejections _). }
    split; [exact Hsnd |]. split; [| split].
    + rewrite Hsnd. unfold requested. fold selected. intros hash Hin.
      apply list_elem_of_In, List.in_map_iff in Hin as (c & <- & Hc).
      apply List.filter_In in Hc as [Hc Hroot]. apply list_elem_of_In in Hc.
      destruct (masked_elem_of c _ _ Hc) as (i & Hi & Hm).
      exists i, c. repeat split; try assumption.
      apply negb_true_iff, String.eqb_neq in Hroot. exact Hroot.
    + unfold requested. fold selected. intros counts Hcounts.
      assert (forall cs ns,
                List.map provider_chunk
                  (List.map chunk_hash
                     (List.filter (fun c => negb (String.eqb (tx_root c) empty_tx_root)) cs))
                = List.map Return ns ->
                rejections (List.map (request provider_chunk) cs) = [] /\
                List.fold_right N.add 0
                  (fulfilled (List.map (request provider_chunk) cs))
                = List.fold_right N.add 0 ns) as Hall.
      { induction cs as [| c cs IH]; intros ns Hns.
        - destruct ns; [now split | discriminate].
        - cbn [List.map List.filter] in Hns |- *.
          destruct (String.eqb (tx_root c) empty_tx_root) eqn:Hroot; cbn [negb] in Hns.
          + assert (request provider_chunk c = Return 0) as ->
              by (unfold request; now rewrite Hroot).
            destruct (IH ns Hns) as [Hr Hf].
            rewrite rejections_Return, fulfilled_Return. split; [exact Hr |].
            cbn [List.fold_right]. rewrite Hf. lia.
          + cbn [List.map] in Hns. destruct ns as [| n ns]; [discriminate |].
            cbn [List.map] in Hns. injection Hns as Hc Hns.
            assert (request provider_chunk c = Return n) as ->
              by (unfold request; now rewrite Hroot).
            destruct (IH ns Hns) as [Hr Hf].
            rewrite rejections_Return, fulfilled_Return. split; [exact Hr |].
            cbn [List.fold_right]. now rewrite Hf. }
      destruct (Hall selected counts Hcounts) as [Hr Hf].
      subst call. rewrite Hr. cbn [fst]. now rewrite fold_left_add, Hf.
    + unfold requested. fold selected. intros hash error Hin Hthrow.
      assert (rejections (List.map (request provider_chunk) selected) <> []) as Hne.
      { apply list_elem_of_In, List.in_map_iff in Hin as (c & <- & Hc).
        apply List.filter_In in Hc as [Hc Hroot].
        clear Hsnd call. induction selected as [| c0 cs IH]; [destruct Hc |].
        cbn [List.map]. unfold rejections. cbn [omap].
        destruct Hc as [-> | Hc].
        - unfold request. apply negb_true_iff in Hroot. rewrite Hroot, Hthrow. discriminate.
        - destruct (request provider_chunk c0); [apply IH, Hc | discriminate]. }
      subst call. destruct (rejections _); [congruence |]. eexists. reflexivity.
Qed.
End BlockTransactionCount.

Lemma getBlockTransactionCount_sum_witness :
  BlockCount.getBlockTransactionCount (fun _ => Return demo_block) demo_chunk
    (fun errors => default (TypeError EmptyString) (head errors)) (BlockNumber 7)
  = (Ok 7, ["c1"; "c4"]).
Proof.
  destruct (getBlockTransactionCount_sum (fun _ => Return demo_block) demo_chunk
              (fun errors => default (TypeError EmptyString) (head errors)) (BlockNumber 7))
    as (_ & Hblock).
  destruct (Hblock demo_block eq_refl) as (Hreq & _ & Hsum & _).
  pose proof (Hsum [3; 4] eq_refl) as Hfst.
  apply injective_projections; [exact Hfst | exact Hreq].
Defined.
